(** * wisp-explorer: the virtual filesystem, the directory merge, the retry
    policy and the service worker, embedded in Rocq.

    Sources embedded here:
    - [src/types/lexicon.ts]: [WispFile], [WispDirectory],
      [mergeDirectories], [normalizePath], [lookupPath],
      [extractCidFromRef], [convertDirectoryNewToOld], [countFiles];
    - [src/utils/atproto.ts]: the assembly of the manifest in
      [fetchWispSiteManifest], from the records it fetched;
    - the retry utility (imported as [utils/retry], the third part of
      [src/utils/logger.ts]): [defaultRetryOptions], [calculateDelay],
      [withRetry];
    - the client of the service worker (the second part of
      [src/utils/logger.ts]): [buildWispPath], [isWispUrl], [extractPath];
    - the service worker ([unnamed/part_000]): [normalizePath],
      [lookupFile], [lookupIndexFile], [guessMimeType], [fetchBlobFromPDS],
      [decompressGzip], [storeBlob], [getBlob], [storeManifest],
      [getManifest], [storeSiteInfo], [getSiteInfo], [rewriteCssUrls],
      [injectOverlayScript], [handleDirectoryListing], [handleFetch], the
      [fetch] listener, [handleMessage].

    Modelling conventions.
    - A JavaScript string is a [string]: a sequence of code units, restricted
      to the code units 0..255.
    - A JavaScript object used as a record from names to values
      ([Record<string, T>], an IndexedDB object store) is a [gmap string T].
      Property lookup is the lookup of the map: own properties only.  The
      prototype chain is not modelled (no inherited name such as
      [constructor], no [__proto__] key), and the enumeration order of the
      keys is the one of the map, not the insertion order.
    - An optional property ([files?], [mimeType?]) and a nullable variable
      are an [option].
    - Asynchronous code is run sequentially, with the state of the worker
      passed explicitly; IndexedDB requests and the opening of the database
      succeed. *)

From Stdlib Require Import ZArith Ascii String List Lia Bool.
From stdpp Require Import gmap strings list fin_maps.

#[local] Open Scope Z_scope.
#[local] Open Scope stdpp_scope.

(* ===================================================================== *)
(** * JavaScript strings *)
(* ===================================================================== *)

Module JsString.

(** [WhiteSpace] and [LineTerminator] code units below 256: TAB, LF, VT, FF,
    CR, SP and NBSP.  These are the characters removed by
    [String.prototype.trim] and matched by [\s]. *)
Definition is_ws (c : ascii) : bool :=
  match nat_of_ascii c with
  | 9%nat | 10%nat | 11%nat | 12%nat | 13%nat | 32%nat | 160%nat => true
  | _ => false
  end.

Fixpoint trimStart (s : string) : string :=
  match s with
  | EmptyString => EmptyString
  | String c s' => if is_ws c then trimStart s' else s
  end.

Fixpoint trimEnd (s : string) : string :=
  match s with
  | EmptyString => EmptyString
  | String c s' =>
      match trimEnd s' with
      | EmptyString => if is_ws c then EmptyString else String c EmptyString
      | t => String c t
      end
  end.

(** [s.trim()] *)
Definition trim (s : string) : string := trimEnd (trimStart s).

(** [s.split(sep)] for a one-character separator; never the empty list. *)
Fixpoint split (sep : ascii) (s : string) : list string :=
  match s with
  | EmptyString => [EmptyString]
  | String c s' =>
      if Ascii.eqb c sep then EmptyString :: split sep s'
      else match split sep s' with
           | h :: t => String c h :: t
           | [] => [String c EmptyString]
           end
  end.

(** [l.join(sep)] *)
Fixpoint join (sep : string) (l : list string) : string :=
  match l with
  | [] => EmptyString
  | [x] => x
  | x :: l' => x +:+ sep +:+ join sep l'
  end.

(** [s.startsWith(p)] *)
Fixpoint startsWith (p s : string) : bool :=
  match p, s with
  | EmptyString, _ => true
  | String a p', String b s' => Ascii.eqb a b && startsWith p' s'
  | String _ _, EmptyString => false
  end.

(** [s.includes(p)] *)
Fixpoint includes (p s : string) : bool :=
  startsWith p s ||
  match s with
  | EmptyString => false
  | String _ s' => includes p s'
  end.

(** Characters left of the first one satisfying [stop]: [s.split(re)[0]] for
    a character-class separator. *)
Fixpoint take_until (stop : ascii -> bool) (s : string) : string :=
  match s with
  | EmptyString => EmptyString
  | String c s' => if stop c then EmptyString else String c (take_until stop s')
  end.

(** [s.replace(/\/$/, '')]: drop one final slash. *)
Fixpoint strip_trailing_slash (s : string) : string :=
  match s with
  | EmptyString => EmptyString
  | String c EmptyString => if Ascii.eqb c "/" then EmptyString else s
  | String c s' => String c (strip_trailing_slash s')
  end.

(** [s.replace(/^\//, '')]: drop one initial slash. *)
Definition strip_leading_slash (s : string) : string :=
  match s with
  | String c s' => if Ascii.eqb c "/" then s' else s
  | EmptyString => EmptyString
  end.

(** Whether the character [c] occurs in [s]. *)
Fixpoint has_char (c : ascii) (s : string) : bool :=
  match s with
  | EmptyString => false
  | String a s' => Ascii.eqb a c || has_char c s'
  end.

(** [a || b] on strings: the empty string is falsy. *)
Definition or_else (a : option string) (b : string) : string :=
  match a with
  | Some (String c s) => String c s
  | _ => b
  end.

(** Truthiness of a nullable string. *)
Definition truthy (a : option string) : bool :=
  match a with
  | Some (String _ _) => true
  | _ => false
  end.

End JsString.

(* ===================================================================== *)
(** * [src/types/lexicon.ts]: the directory tree and its lookups *)
(* ===================================================================== *)

Module Lexicon.
Import JsString.

(** [interface WispFile] *)
Record WispFile : Type := mkWispFile {
  cid : string;
  mimeType : option string;
  size : option Z
}.

(** [interface WispDirectory]: both maps are optional. *)
#[warnings="-register-all"]
Inductive WispDirectory : Type :=
| mkDir (files : option (gmap string WispFile))
        (dirs : option (gmap string WispDirectory)).

Definition files (d : WispDirectory) : option (gmap string WispFile) :=
  let 'mkDir f _ := d in f.

Definition dirs (d : WispDirectory) : option (gmap string WispDirectory) :=
  let 'mkDir _ ds := d in ds.

(** [dir.files && dir.files[name]] *)
Definition file_named (d : WispDirectory) (name : string) : option WispFile :=
  files d ≫= (.!! name).

(** [dir.dirs && dir.dirs[name]] *)
Definition dir_named (d : WispDirectory) (name : string) : option WispDirectory :=
  dirs d ≫= (.!! name).

(** [createEmptyDirectory()], also the initial [result] of the merge. *)
Definition createEmptyDirectory : WispDirectory := mkDir None None.

(** [type PathResolution]; [null] is [None]. *)
Inductive PathResolution : Type :=
| FileLookupResult (cid : string) (mimeType : string)
| DirectoryLookupResult (files : gmap string WispFile) (dirs : list string).

(** [Object.keys(o)] *)
Definition keys {A} (m : gmap string A) : list string := (map_to_list m).*1.

(** The loop of [normalizePath]: [..] pops, any other segment is pushed. *)
Definition normalize_step (result : list string) (segment : string) : list string :=
  if String.eqb segment ".." then removelast result else result ++ [segment].

Definition keep_segment (s : string) : bool :=
  negb (String.eqb s "") && negb (String.eqb s ".").

(** [normalizePath(path)] *)
Definition normalizePath (path : string) : string :=
  let normalized := trim path in
  let segments := List.filter keep_segment (split "/" normalized) in
  let result := fold_left normalize_step segments [] in
  join "/" result.

(** A segment that [normalizePath] keeps and pushes. *)
Definition clean_segment (s : string) : Prop :=
  keep_segment s = true /\ String.eqb s ".." = false /\ has_char "/" s = false.

(** The segments that [normalizePath] joins. *)
Definition normal_segments (path : string) : list string :=
  fold_left normalize_step (List.filter keep_segment (split "/" (trim path))) [].

(** The traversal loop of [lookupPath] over all but the last segment. *)
Fixpoint traverse (currentDir : WispDirectory) (segments : list string)
  : option WispDirectory :=
  match segments with
  | [] => Some currentDir
  | segment :: rest =>
      match dir_named currentDir segment with
      | None => None
      | Some d => traverse d rest
      end
  end.

Definition listing (d : WispDirectory) : PathResolution :=
  DirectoryLookupResult (default ∅ (files d)) (keys (default ∅ (dirs d))).

(** [lookupPath(directory, path)] *)
Definition lookupPath (directory : WispDirectory) (path : string)
  : option PathResolution :=
  let normalizedPath := normalizePath path in
  if String.eqb normalizedPath "" then Some (listing directory)
  else
    let segments := split "/" normalizedPath in
    match traverse directory (removelast segments) with
    | None => None
    | Some currentDir =>
        let lastSegment := List.last segments "" in
        match file_named currentDir lastSegment with
        | Some file =>
            Some (FileLookupResult (cid file)
                    (or_else (mimeType file) "application/octet-stream"))
        | None =>
            match dir_named currentDir lastSegment with
            | Some subDir => Some (listing subDir)
            | None => None
            end
        end
    end.

(** One execution of the body of the [for (const [name, subDir] of
    Object.entries(dir.dirs))] loop of [mergeDirectories], on the
    accumulated [result.dirs].  [merge] is the recursive call
    [mergeDirectories(result.dirs[name], subDir)]. *)
Definition merge_entry (merge : WispDirectory -> WispDirectory -> WispDirectory)
  (name : string) (subDir : WispDirectory)
  (resultDirs : gmap string WispDirectory) : gmap string WispDirectory :=
  match resultDirs !! name with
  | Some existing => <[name := merge existing subDir]> resultDirs
  | None => <[name := subDir]> resultDirs
  end.

(** The body of the outer loop of [mergeDirectories] for one non-null
    [dir], on the accumulated [result].

    The source recurses with [mergeDirectories(result.dirs[name], subDir)],
    which starts from a fresh empty result and runs this body twice.  Its
    first run, on the empty result, copies [result.dirs[name]] without
    recursing, so the recursion is on [subDir] alone and is structural; the
    equation of the source is [merge_into_eq_mergeDirectories] below. *)
Fixpoint merge_into (result dir : WispDirectory) {struct dir} : WispDirectory :=
  match dir with
  | mkDir dirFiles dirDirs =>
      mkDir
        (match dirFiles with
         | Some fs => Some (fs ∪ default ∅ (files result))
         | None => files result
         end)
        (match dirDirs with
         | Some ds =>
             Some (map_fold (merge_entry merge_into) (default ∅ (dirs result)) ds)
         | None => dirs result
         end)
  end.

(** The outer loop body, with its [if (!dir) continue]. *)
Definition merge_next (result : WispDirectory) (dir : option WispDirectory)
  : WispDirectory :=
  match dir with
  | None => result
  | Some d => merge_into result d
  end.

(** [mergeDirectories(...directories)] *)
Definition mergeDirectories (directories : list (option WispDirectory))
  : WispDirectory :=
  fold_left merge_next directories createEmptyDirectory.

(** ** Paths into a tree, used to state the properties of the merge *)

(** The file entry of [d] at the path [p], a list of names. *)
Fixpoint file_at (d : WispDirectory) (p : list string) : option WispFile :=
  match p with
  | [] => None
  | [name] => file_named d name
  | name :: rest =>
      match dir_named d name with
      | Some sub => file_at sub rest
      | None => None
      end
  end.

(** No path is a file in one tree and a file or a directory in the other. *)
Definition disjoint_file_paths (a b : WispDirectory) : Prop :=
  forall p,
    (is_Some (file_at a p) -> file_at b p = None /\ traverse b p = None)
    /\ (is_Some (file_at b p) -> file_at a p = None /\ traverse a p = None).

(** The later of two optional values, when it is defined. *)
Definition later {A} (acc o : option A) : option A :=
  match o with
  | Some x => Some x
  | None => acc
  end.

(** The last defined value of a list of optional values. *)
Definition last_defined {A} (l : list (option A)) : option A :=
  fold_left later l None.

(** Merging one more subtree into what a name holds so far. *)
Definition merge_sub (held : option WispDirectory) (sub : WispDirectory)
  : option WispDirectory :=
  Some (match held with
        | Some existing => merge_into existing sub
        | None => sub
        end).

(** The subtrees named [name] of the non-null inputs that have one, in
    input order. *)
Definition subtrees (name : string) (directories : list (option WispDirectory))
  : list WispDirectory :=
  omap (fun o => o ≫= (fun d => dir_named d name)) directories.

(** Number of nodes of a tree, the measure of the inductions below. *)
Fixpoint dir_size (d : WispDirectory) : nat :=
  match d with
  | mkDir _ ds =>
      S (match ds with
         | Some m => map_fold (fun _ sub acc => (dir_size sub + acc)%nat) 0%nat m
         | None => 0%nat
         end)
  end.


(** ** The new format of a directory and its conversion *)

(** [type BlobRef]: a CID object, with the string its [toString()] returns,
    an object with a string [$link], or any other object. *)
Inductive BlobRef : Type :=
| CidObject (text : string)
| Link (link : string)
| OtherRef.

(** [extractCidFromRef(ref)]; [None] when it throws. *)
Definition extractCidFromRef (ref : BlobRef) : option string :=
  match ref with
  | CidObject text => Some text
  | Link link => Some link
  | OtherRef => None
  end.

(** A node of the new format: its [type], and the fields of a file node
    ([blob.ref], [blob.mimeType], [blob.size] and [mimeType]) or the
    [entries] of a directory node. *)
#[warnings="-register-all"]
Inductive WispNode : Type :=
| FileNode (type : string) (ref : BlobRef) (blobMimeType : option string)
    (blobSize : option Z) (nodeMimeType : option string)
| DirectoryNode (type : string) (entries : option (list (string * WispNode))).

Definition node_type (node : WispNode) : string :=
  match node with
  | FileNode type _ _ _ _ => type
  | DirectoryNode type _ => type
  end.

Definition is_file_type (type : string) : bool :=
  String.eqb type "file" || String.eqb type "place.wisp.fs#file".

Definition is_directory_type (type : string) : bool :=
  String.eqb type "directory" || String.eqb type "place.wisp.fs#directory".

(** [dir.files![name] = file] and [dir.dirs![name] = sub] *)
Definition set_file (dir : WispDirectory) (name : string) (file : WispFile)
  : WispDirectory :=
  mkDir (Some (<[name := file]> (default ∅ (files dir)))) (dirs dir).

Definition set_dir (dir : WispDirectory) (name : string) (sub : WispDirectory)
  : WispDirectory :=
  mkDir (files dir) (Some (<[name := sub]> (default ∅ (dirs dir)))).

(** The loop of [convertDirectoryNewToOld] over the entries; [convert] is
    the recursive call.  A node of file type without a [blob], and a
    reference that [extractCidFromRef] rejects, throw. *)
Fixpoint convert_entries (convert : WispNode -> option WispDirectory)
  (entries : list (string * WispNode)) (dir : WispDirectory)
  : option WispDirectory :=
  match entries with
  | [] => Some dir
  | (name, node) :: rest =>
      if is_file_type (node_type node) then
        match node with
        | FileNode _ ref blobMimeType blobSize nodeMimeType =>
            match extractCidFromRef ref with
            | Some cid =>
                let mimeType :=
                  or_else nodeMimeType
                    (or_else blobMimeType "application/octet-stream") in
                convert_entries convert rest
                  (set_file dir name (mkWispFile cid (Some mimeType) blobSize))
            | None => None
            end
        | DirectoryNode _ _ => None
        end
      else if is_directory_type (node_type node) then
        match convert node with
        | Some sub => convert_entries convert rest (set_dir dir name sub)
        | None => None
        end
      else convert_entries convert rest dir
  end.

(** [convertDirectoryNewToOld(dirNew)]; [None] when it throws.  A file
    node has no [entries]. *)
Fixpoint convertDirectoryNewToOld (dirNew : WispNode) : option WispDirectory :=
  match dirNew with
  | DirectoryNode _ (Some entries) =>
      convert_entries convertDirectoryNewToOld entries (mkDir (Some ∅) (Some ∅))
  | _ => Some (mkDir (Some ∅) (Some ∅))
  end.

(** [countFiles(dir)] *)
Fixpoint countFiles (dir : WispDirectory) : nat :=
  match dir with
  | mkDir fs ds =>
      (match fs with
       | Some m => stdpp.base.size m
       | None => 0
       end
       + match ds with
         | Some m => map_fold (fun _ subDir count => count + countFiles subDir) 0 m
         | None => 0
         end)%nat
  end.

(** The directory of a record, in either format: the part of
    [fetchWispSiteManifest] between the records it fetched and the merge.
    A record is in the new format when it has a [type] and [entries]. *)
Inductive DirectoryRecord : Type :=
| OldFormat (directory : WispDirectory)
| NewFormat (node : WispNode).

Definition record_directory (record : DirectoryRecord) : option WispDirectory :=
  match record with
  | OldFormat directory => Some directory
  | NewFormat (DirectoryNode _ (Some _) as node) => convertDirectoryNewToOld node
  | NewFormat _ => Some (mkDir None None)
  end.

(** The manifest [fetchWispSiteManifest] builds from the root of the
    [place.wisp.fs] record and the directories of the [place.wisp.subfs]
    records; [None] when a conversion throws. *)
Definition site_manifest (root : DirectoryRecord) (subfs : list DirectoryRecord)
  : option WispDirectory :=
  directories ← mapM record_directory (root :: subfs);
  Some (mergeDirectories (Some <$> directories)).

(** Every file of the tree has a MIME type that is not empty; every
    directory of the tree has both maps. *)
Definition typed_files (d : WispDirectory) : Prop :=
  forall p file, file_at d p = Some file -> truthy (mimeType file) = true.

Definition both_maps (d : WispDirectory) : Prop :=
  forall segments sub,
    traverse d segments = Some sub -> is_Some (files sub) /\ is_Some (dirs sub).

End Lexicon.

(* ===================================================================== *)
(** * The retry utility: retry with exponential backoff *)
(* ===================================================================== *)

Module Retry.

(** A thrown value, as far as [shouldRetry] inspects it.  [status] is the
    own property [status] when it is present and a number (an integer
    here); a [status] of any other type is [None]. *)
Inductive JsError : Type :=
| TypeError (message : string)
| ErrorObject (name message : string) (status : option Z)
| NonError (description : string)
| Undefined.

(** [Required<RetryOptions>] *)
Record RetryOptions : Type := mkRetryOptions {
  maxAttempts : nat;
  initialDelay : Z;
  maxDelay : Z;
  backoffFactor : Z;
  shouldRetry : JsError -> bool
}.

(** [defaultRetryOptions.shouldRetry] *)
Definition defaultShouldRetry (error : JsError) : bool :=
  match error with
  | TypeError _ => true
  | ErrorObject _ _ (Some status) => (500 <=? status) || (status =? 429)
  | _ => false
  end.

Definition defaultRetryOptions : RetryOptions :=
  {| maxAttempts := 3;
     initialDelay := 1000;
     maxDelay := 10000;
     backoffFactor := 2;
     shouldRetry := defaultShouldRetry |}.

(** [calculateDelay(attempt, options)] *)
Definition calculateDelay (attempt : nat) (options : RetryOptions) : Z :=
  let delay := initialDelay options * backoffFactor options ^ Z.of_nat attempt in
  Z.min delay (maxDelay options).

Section WithRetry.

(** The wrapped operation [fn] acts on a world [World] and either resolves
    with a [T] or rejects with a [JsError]. *)
Context {World T : Type}.
Variable fn : World -> (T + JsError) * World.

(** What a run of [withRetry] did: its completion (the value returned or
    the value thrown), the outcome of each invocation of [fn] in order, the
    delays slept in order, and the world it left. *)
Record Run : Type := mkRun {
  completion : T + JsError;
  attempts : list (T + JsError);
  sleeps : list Z;
  world : World
}.

(** The [for (let attempt = 0; attempt < opts.maxAttempts; attempt++)] loop;
    [remaining] is [opts.maxAttempts - attempt]. *)
Fixpoint retry_loop (opts : RetryOptions) (remaining attempt : nat)
  (lastError : JsError) (done : list (T + JsError)) (slept : list Z)
  (w : World) : Run :=
  match remaining with
  | O => mkRun (inr lastError) done slept w
  | S remaining' =>
      match fn w with
      | (inl value, w') => mkRun (inl value) (done ++ [inl value]) slept w'
      | (inr error, w') =>
          let isLastAttempt := Nat.eqb attempt (maxAttempts opts - 1) in
          let retry := negb isLastAttempt && shouldRetry opts error in
          if negb retry then mkRun (inr error) (done ++ [inr error]) slept w'
          else
            let delay := calculateDelay attempt opts in
            retry_loop opts remaining' (S attempt) error
              (done ++ [inr error]) (slept ++ [delay]) w'
      end
  end.

(** [withRetry(fn, options)], with [opts] the options merged over the
    defaults. *)
Definition withRetry (opts : RetryOptions) (w : World) : Run :=
  retry_loop opts (maxAttempts opts) 0 Undefined [] [] w.

End WithRetry.

(** ** The policy, as the specification words it *)

(** An HTTP status code. *)
Definition http_status (s : Z) : Prop := 100 <= s <= 599.

(** The errors that carry a status carry an HTTP status. *)
Definition well_formed (e : JsError) : Prop :=
  match e with
  | ErrorObject _ _ (Some s) => http_status s
  | _ => True
  end.

(** A network-level failure, or an error carrying a status 5xx or 429. *)
Definition retryable (e : JsError) : Prop :=
  match e with
  | TypeError _ => True
  | ErrorObject _ _ (Some s) => 500 <= s <= 599 \/ s = 429
  | _ => False
  end.

End Retry.

(* ===================================================================== *)
(** * Regular expressions, as far as the service worker uses them *)
(* ===================================================================== *)

Module JsRegExp.
Import JsString.

(** The patterns of the worker star only character classes, so repetition
    is on a class.  Matching is the backtracking matching of ECMAScript:
    alternatives left to right, greedy repetition longest first, lazy
    repetition shortest first. *)
Inductive regex : Type :=
| Eps
| Eos                                   (* [$] without the [m] flag *)
| Chr (p : ascii -> bool)               (* one character of a class *)
| Cat (r1 r2 : regex)
| Alt (r1 r2 : regex)
| Rep (greedy : bool) (p : ascii -> bool).   (* [p*] and [p*?] *)

Section Matcher.
Context {A : Type}.

Fixpoint rep_greedy (p : ascii -> bool) (k : string -> option A) (s : string)
  : option A :=
  match s with
  | String c s' =>
      if p c then
        match rep_greedy p k s' with
        | Some r => Some r
        | None => k s
        end
      else k s
  | EmptyString => k s
  end.

Fixpoint rep_lazy (p : ascii -> bool) (k : string -> option A) (s : string)
  : option A :=
  match k s with
  | Some r => Some r
  | None =>
      match s with
      | String c s' => if p c then rep_lazy p k s' else None
      | EmptyString => None
      end
  end.

(** [run r k s]: match [r] at the start of [s], then continue with [k] on
    what is left; the first success in backtracking order. *)
Fixpoint run (r : regex) (k : string -> option A) (s : string) : option A :=
  match r with
  | Eps => k s
  | Eos => match s with EmptyString => k s | String _ _ => None end
  | Chr p =>
      match s with
      | String c s' => if p c then k s' else None
      | EmptyString => None
      end
  | Cat r1 r2 => run r1 (run r2 k) s
  | Alt r1 r2 =>
      match run r1 k s with
      | Some x => Some x
      | None => run r2 k s
      end
  | Rep true p => rep_greedy p k s
  | Rep false p => rep_lazy p k s
  end.

End Matcher.

(** The first [length s - length rest] characters of [s]: the text matched
    when [rest] is what the match left. *)
Fixpoint take (n : nat) (s : string) : string :=
  match n, s with
  | S n', String c s' => String c (take n' s')
  | _, _ => EmptyString
  end.

Definition consumed (s rest : string) : string :=
  take (String.length s - String.length rest) s.

(** A pattern that is a sequence of capture groups, [(g1)(g2)...(gn)]:
    the captures and what the match left. *)
Fixpoint run_groups (gs : list regex) (s : string)
  (k : list string -> string -> option (list string * string))
  : option (list string * string) :=
  match gs with
  | [] => k [] s
  | g :: gs' =>
      run g (fun s1 =>
        run_groups gs' s1 (fun caps rest => k (consumed s s1 :: caps) rest)) s
  end.

Definition exec_groups (gs : list regex) (s : string)
  : option (list string * string) :=
  run_groups gs s (fun caps rest => Some (caps, rest)).

(** ASCII letters compare without case under the [i] flag; no other code
    unit below 256 canonicalizes to an ASCII letter. *)
Definition ascii_lower (c : ascii) : ascii :=
  let n := nat_of_ascii c in
  if (65 <=? n)%nat && (n <=? 90)%nat then ascii_of_nat (n + 32) else c.

Definition chr (c : ascii) : regex := Chr (Ascii.eqb c).
Definition chr_i (c : ascii) : regex :=
  Chr (fun x => Ascii.eqb (ascii_lower x) (ascii_lower c)).

(** A literal, case-insensitive when [i] is set. *)
Fixpoint lit (i : bool) (s : string) : regex :=
  match s with
  | EmptyString => Eps
  | String c s' => Cat (if i then chr_i c else chr c) (lit i s')
  end.

Definition none_of (cs : list ascii) : ascii -> bool :=
  fun x => negb (existsb (Ascii.eqb x) cs).
Definition one_of (cs : list ascii) : ascii -> bool :=
  fun x => existsb (Ascii.eqb x) cs.

Definition plus (p : ascii -> bool) : regex := Cat (Chr p) (Rep true p).
Definition opt (r : regex) : regex := Alt r Eps.

Fixpoint alts (rs : list regex) : regex :=
  match rs with
  | [] => Chr (fun _ => false)
  | [r] => r
  | r :: rs' => Alt r (alts rs')
  end.

Fixpoint cats (rs : list regex) : regex :=
  match rs with
  | [] => Eps
  | r :: rs' => Cat r (cats rs')
  end.

(** [GetSubstitution]: the replacement template of [String.prototype.replace]
    expanded for one match, without named groups. *)
Definition digit_value (c : ascii) : option nat :=
  let n := nat_of_ascii c in
  if (48 <=? n)%nat && (n <=? 57)%nat then Some (n - 48)%nat else None.

Definition capture (captures : list string) (index : nat) : option string :=
  match index with
  | O => None
  | S i => nth_error captures i
  end.

Fixpoint getSubstitution (matched before after : string)
  (captures : list string) (template : string) : string :=
  match template with
  | EmptyString => EmptyString
  | String "$" t =>
      match t with
      | EmptyString => "$"
      | String "$" t' => "$" +:+ getSubstitution matched before after captures t'
      | String "&" t' => matched +:+ getSubstitution matched before after captures t'
      | String "`" t' => before +:+ getSubstitution matched before after captures t'
      | String "'" t' => after +:+ getSubstitution matched before after captures t'
      | String d1 t' =>
          match digit_value d1 with
          | None => String "$" (getSubstitution matched before after captures t)
          | Some n1 =>
              let one_digit :=
                match capture captures n1 with
                | Some c => c +:+ getSubstitution matched before after captures t'
                | None =>
                    String "$" (String d1
                      (getSubstitution matched before after captures t'))
                end in
              match t' with
              | String d2 t'' =>
                  match digit_value d2 with
                  | Some n2 =>
                      match capture captures (10 * n1 + n2) with
                      | Some c =>
                          c +:+ getSubstitution matched before after captures t''
                      | None => one_digit
                      end
                  | None => one_digit
                  end
              | EmptyString => one_digit
              end
          end
      end
  | String c t => String c (getSubstitution matched before after captures t)
  end.

(** The leftmost match of a pattern of groups: the text before it, the
    captures, and the text after it. *)
Fixpoint search_groups (gs : list regex) (s : string)
  : option (string * list string * string) :=
  match exec_groups gs s with
  | Some (caps, rest) => Some (EmptyString, caps, rest)
  | None =>
      match s with
      | String c s' =>
          match search_groups gs s' with
          | Some (before, caps, rest) => Some (String c before, caps, rest)
          | None => None
          end
      | EmptyString => None
      end
  end.

(** [re.test(s)] / [s.match(re) !== null] for a pattern without [g]. *)
Definition test (r : regex) (s : string) : bool :=
  match search_groups [r] s with Some _ => true | None => false end.

(** [s.replace(re, template)] for a pattern of groups without [g]. *)
Definition replace_first (gs : list regex) (template : string) (s : string)
  : string :=
  match search_groups gs s with
  | Some (before, caps, rest) =>
      let matched := String.concat EmptyString caps in
      before +:+ getSubstitution matched before rest caps template +:+ rest
  | None => s
  end.

Fixpoint drop (n : nat) (s : string) : string :=
  match n, s with
  | S n', String _ s' => drop n' s'
  | _, _ => s
  end.

(** The leftmost occurrence of the string [pat] in [s]: the text before it
    and the text after it. *)
Fixpoint search_string (pat s : string) : option (string * string) :=
  if startsWith pat s then Some (EmptyString, drop (String.length pat) s)
  else
    match s with
    | String c s' =>
        match search_string pat s' with
        | Some (before, rest) => Some (String c before, rest)
        | None => None
        end
    | EmptyString => None
    end.

(** [s.replace(pat, template)] for a string [pat]. *)
Definition replace_first_string (pat template s : string) : string :=
  match search_string pat s with
  | Some (before, rest) =>
      before +:+ getSubstitution pat before rest [] template +:+ rest
  | None => s
  end.

(** [s.replace(re, replacer)] for a pattern of groups with the [g] flag and
    a replacer function of the captures.  [skip] counts the characters of
    the current match still to be passed over. *)
Fixpoint replace_all (gs : list regex) (replacer : list string -> string)
  (skip : nat) (s : string) {struct s} : string :=
  match skip, s with
  | S n, String _ s' => replace_all gs replacer n s'
  | S _, EmptyString => EmptyString
  | O, _ =>
      match exec_groups gs s with
      | Some (caps, rest) =>
          match s with
          | EmptyString => replacer caps
          | String c s' =>
              match (String.length s - String.length rest)%nat with
              | O => replacer caps +:+ String c (replace_all gs replacer 0 s')
              | S n => replacer caps +:+ replace_all gs replacer n s'
              end
          end
      | None =>
          match s with
          | String c s' => String c (replace_all gs replacer 0 s')
          | EmptyString => EmptyString
          end
      end
  end.

(** [(s.match(re) || []).length] for a pattern with the [g] flag: the number
    of matches found scanning left to right. *)
Fixpoint count_matches (r : regex) (skip : nat) (s : string) {struct s} : nat :=
  match skip, s with
  | S n, String _ s' => count_matches r n s'
  | S _, EmptyString => 0
  | O, _ =>
      match exec_groups [r] s with
      | Some (_, rest) =>
          match s with
          | EmptyString => 1
          | String c s' =>
              S (count_matches r (String.length s - String.length rest - 1) s')
          end
      | None =>
          match s with
          | String c s' => count_matches r 0 s'
          | EmptyString => 0
          end
      end
  end.

(** Every character of [s] is in the class [p]; [s] does not start with a
    character of [p]. *)
Fixpoint every (p : ascii -> bool) (s : string) : bool :=
  match s with
  | EmptyString => true
  | String c s' => p c && every p s'
  end.

Definition stops (p : ascii -> bool) (s : string) : bool :=
  match s with
  | EmptyString => true
  | String c _ => negb (p c)
  end.

(** The first way [r] matches in front of [b], in backtracking order, is
    on [a], whenever what follows the match succeeds. *)
Definition matches_first (r : regex) (a b : string) : Prop :=
  forall (A : Type) (k : string -> option A) (x : A),
    k b = Some x -> run r k (a +:+ b) = Some x.

End JsRegExp.

(* ===================================================================== *)
(** * The service worker *)
(* ===================================================================== *)

Module ServiceWorker.
Import JsString Lexicon JsRegExp.

Definition MANIFEST_KEY : string := "current-manifest".
Definition SITE_INFO_KEY : string := "site-info".

(** ** Path lookup *)

Definition is_query_or_hash (c : ascii) : bool :=
  Ascii.eqb c "?" || Ascii.eqb c "#".

(** [normalizePath(path)] of the worker. *)
Definition normalizePath (path : string) : string :=
  if String.eqb path "" || String.eqb path "/" then ""
  else
    let normalized := take_until is_query_or_hash (strip_leading_slash path) in
    strip_trailing_slash normalized.

(** The part of [lookupFile] after the test for the empty path: walk the
    directories, then read the file entry. *)
Definition lookup_segments (manifest : WispDirectory) (normalized : string)
  : option WispFile :=
  let segments := split "/" normalized in
  match traverse manifest (removelast segments) with
  | None => None
  | Some current => file_named current (List.last segments "")
  end.

Definition indexFiles : list string := ["index.html"; "index.htm"].

(** The first result that is not [null]. *)
Fixpoint first_found {A B} (f : A -> option B) (l : list A) : option B :=
  match l with
  | [] => None
  | x :: l' => match f x with Some r => Some r | None => first_found f l' end
  end.

(** [lookupFile(manifest, path)].  On the empty path the source calls
    itself on each index file name; these names are not empty after
    normalization, so the inner call is the walk [lookup_segments]
    ([lookupFile_equation] below is the equation of the source). *)
Definition lookupFile (manifest : WispDirectory) (path : string)
  : option WispFile :=
  let normalized := normalizePath path in
  if String.eqb normalized "" then
    first_found
      (fun indexFile => lookup_segments manifest (normalizePath indexFile))
      indexFiles
  else lookup_segments manifest normalized.

(** ** MIME types *)

(** [s.toLowerCase()] on code units below 256. *)
Definition to_lower (c : ascii) : ascii :=
  let n := nat_of_ascii c in
  if ((65 <=? n) && (n <=? 90) || (192 <=? n) && (n <=? 222) && negb (n =? 215))%nat
  then ascii_of_nat (n + 32) else c.

Fixpoint toLowerCase (s : string) : string :=
  match s with
  | EmptyString => EmptyString
  | String c s' => String (to_lower c) (toLowerCase s')
  end.

Definition mimeTypes : list (string * string) :=
  [ ("html", "text/html"); ("htm", "text/html"); ("css", "text/css");
    ("js", "application/javascript"); ("json", "application/json");
    ("xml", "application/xml"); ("txt", "text/plain");
    ("md", "text/markdown"); ("png", "image/png"); ("jpg", "image/jpeg");
    ("jpeg", "image/jpeg"); ("gif", "image/gif"); ("webp", "image/webp");
    ("svg", "image/svg+xml"); ("ico", "image/x-icon");
    ("pdf", "application/pdf"); ("zip", "application/zip");
    ("wasm", "application/wasm"); ("mp3", "audio/mpeg"); ("mp4", "video/mp4");
    ("webm", "video/webm"); ("ogg", "audio/ogg"); ("wav", "audio/wav");
    ("ttf", "font/ttf"); ("otf", "font/otf"); ("woff", "font/woff");
    ("woff2", "font/woff2"); ("eot", "application/vnd.ms-fontobject") ].

Fixpoint assoc (k : string) (l : list (string * string)) : option string :=
  match l with
  | [] => None
  | (k', v) :: l' => if String.eqb k k' then Some v else assoc k l'
  end.

(** [guessMimeType(filename)] *)
Definition guessMimeType (filename : string) : string :=
  let ext := toLowerCase (List.last (split "." filename) "") in
  or_else (assoc ext mimeTypes) "application/octet-stream".

(** ** State *)

(** The site information persisted under [SITE_INFO_KEY]. *)
Record SiteInfo : Type := mkSiteInfo {
  si_pdsUrl : option string;
  si_did : option string;
  si_handle : option string;
  si_siteName : option string
}.

(** A value of the object store [manifests]. *)
Inductive Stored : Type :=
| StoredManifest (manifest : option WispDirectory)
| StoredSiteInfo (info : SiteInfo).

(** A [Blob]. *)
Record Blob : Type := mkBlob {
  blob_bytes : list Byte.byte;
  blob_type : string
}.

Definition blob_size (b : Blob) : Z := Z.of_nat (List.length (blob_bytes b)).

(** The module variables of the worker, the two object stores of the
    database [WispCache], which outlive the worker, and the requests sent
    to the network so far.  [db] tells whether the variable [db] holds an
    open connection; it is [false] whenever the worker starts. *)
Record State : Type := mkState {
  currentManifest : option WispDirectory;
  pdsUrl : option string;
  did : option string;
  currentHandle : option string;
  currentSiteName : option string;
  db : bool;
  manifests : gmap string Stored;
  blobs : gmap string Blob;
  fetched : list string
}.

Definition set_db (st : State) (v : bool) : State :=
  mkState (currentManifest st) (pdsUrl st) (did st) (currentHandle st)
    (currentSiteName st) v (manifests st) (blobs st) (fetched st).

Definition set_manifests (st : State) (m : gmap string Stored) : State :=
  mkState (currentManifest st) (pdsUrl st) (did st) (currentHandle st)
    (currentSiteName st) (db st) m (blobs st) (fetched st).

Definition set_blobs (st : State) (b : gmap string Blob) : State :=
  mkState (currentManifest st) (pdsUrl st) (did st) (currentHandle st)
    (currentSiteName st) (db st) (manifests st) b (fetched st).

Definition log_fetch (st : State) (url : string) : State :=
  mkState (currentManifest st) (pdsUrl st) (did st) (currentHandle st)
    (currentSiteName st) (db st) (manifests st) (blobs st) (fetched st ++ [url]).

(** [if (!db) await initDB()] *)
Definition ensure_db (st : State) : State :=
  if db st then st else set_db st true.

(** [storeManifest(manifest)] *)
Definition storeManifest (manifest : option WispDirectory) (st : State) : State :=
  let st := ensure_db st in
  set_manifests st (<[MANIFEST_KEY := StoredManifest manifest]> (manifests st)).

(** [storeSiteInfo(siteInfo)] *)
Definition storeSiteInfo (info : SiteInfo) (st : State) : State :=
  let st := ensure_db st in
  set_manifests st (<[SITE_INFO_KEY := StoredSiteInfo info]> (manifests st)).

(** [storeBlob(cid, blob)] *)
Definition storeBlob (cid : string) (blob : Blob) (st : State) : State :=
  let st := ensure_db st in
  set_blobs st (<[cid := blob]> (blobs st)).

(** [getBlob(cid)] *)
Definition getBlob (cid : string) (st : State) : option Blob * State :=
  let st := ensure_db st in
  (blobs st !! cid, st).

(** ** Fetching a blob *)

Inductive CacheMarker : Type := HIT | MISS.

(** The [Response] built by [fetchBlobFromPDS]. *)
Record Response : Type := mkResponse {
  body : list Byte.byte;
  contentType : string;
  cacheControl : string;
  wispCache : CacheMarker
}.

(** What the network answers to a request. *)
Inductive NetworkReply : Type :=
| NetworkFailure
| HttpResponse (status : Z) (statusText : string) (payload : list Byte.byte).

(** [response.ok] *)
Definition response_ok (status : Z) : bool := (200 <=? status) && (status <=? 299).

Inductive SwError : Type :=
| NotConfigured
| FetchRejected
| FetchFailed (status : Z) (statusText : string)
| InvalidBase64
| DecompressFailed (cid : string) (reason : string).

Inductive Completion (A : Type) : Type :=
| Return (value : A)
| Throw (error : SwError).
Arguments Return {A} value.
Arguments Throw {A} error.

(** [/^[A-Za-z0-9+/]+={0,2}$/] *)
Definition is_base64_char (c : ascii) : bool :=
  let n := nat_of_ascii c in
  ((65 <=? n) && (n <=? 90) || (97 <=? n) && (n <=? 122) ||
   (48 <=? n) && (n <=? 57) || (n =? 43) || (n =? 47))%nat.

Definition base64_re : regex :=
  cats [plus is_base64_char; opt (chr "="); opt (chr "="); Eos].

(** [textContent.match(base64_re) && textContent.length > 50] *)
Definition looks_base64 (textContent : string) : bool :=
  match exec_groups [base64_re] textContent with
  | Some _ => (50 <? String.length textContent)%nat
  | None => false
  end.

Definition bytes_of_binary_string (s : string) : list Byte.byte :=
  List.map byte_of_ascii (list_ascii_of_string s).

(** [bytes[0] === 0x1f && bytes[1] === 0x8b] *)
Definition has_gzip_magic (bytes : list Byte.byte) : bool :=
  match bytes with
  | b0 :: b1 :: _ => Byte.eqb b0 Byte.x1f && Byte.eqb b1 Byte.x8b
  | _ => false
  end.

(** What the platform provides: the network, as a function of the requests
    sent so far and of the URL; [TextDecoder.decode]; [atob], which may
    throw; [DecompressionStream] and [pako.ungzip], each of which may be
    absent and may fail. *)
Record Platform : Type := mkPlatform {
  network : list string -> string -> NetworkReply;
  textDecode : list Byte.byte -> string;
  atob : string -> option string;
  decompressionStream : option (list Byte.byte -> option (list Byte.byte));
  pako_ungzip : option (list Byte.byte -> option (list Byte.byte))
}.

Section Platform.
Variable platform : Platform.

(** [decompressGzip(compressedBytes)] *)
Definition decompressGzip (compressedBytes : list Byte.byte)
  : list Byte.byte + string :=
  match decompressionStream platform ≫= (fun f => f compressedBytes) with
  | Some data => inl data
  | None =>
      match pako_ungzip platform with
      | Some ungzip =>
          match ungzip compressedBytes with
          | Some data => inl data
          | None => inr "Pako decompression failed"
          end
      | None => inr "No decompression method available"
      end
  end.

(** The content sniffing of [fetchBlobFromPDS]: base64 and gzip are undone
    when the bytes look encoded.  Every branch defines [decompressedData],
    so the test [decompressedData === undefined] of the source never
    fires. *)
Definition decode_blob (cid : string) (raw : list Byte.byte)
  : Completion (list Byte.byte) :=
  let textContent := textDecode platform raw in
  if looks_base64 textContent then
    match atob platform textContent with
    | None => Throw InvalidBase64
    | Some binaryString =>
        let bytes := bytes_of_binary_string binaryString in
        if has_gzip_magic bytes then
          match decompressGzip bytes with
          | inl data => Return data
          | inr reason => Throw (DecompressFailed cid reason)
          end
        else Return bytes
    end
  else Return raw.

Definition five_megabytes : Z := 5 * 1024 * 1024.

(** The URL of [com.atproto.sync.getBlob] for a content identifier. *)
Definition blob_url (st : State) (cid : string) : string :=
  default "" (pdsUrl st) +:+ "/xrpc/com.atproto.sync.getBlob?did="
  +:+ default "" (did st) +:+ "&cid=" +:+ cid.

(** [mimeType || guessMimeType(cid)] *)
Definition content_type (mimeType : option string) (cid : string) : string :=
  or_else mimeType (guessMimeType cid).

(** [fetchBlobFromPDS(cid, mimeType)] *)
Definition fetchBlobFromPDS (cid : string) (mimeType : option string)
  (st : State) : Completion Response * State :=
  if negb (truthy (pdsUrl st)) || negb (truthy (did st)) then
    (Throw NotConfigured, st)
  else
    let '(cached, st) := getBlob cid st in
    match cached with
    | Some blob =>
        (Return (mkResponse (blob_bytes blob) (content_type mimeType cid)
                   "public, max-age=3600" HIT), st)
    | None =>
        let url := blob_url st cid in
        let reply := network platform (fetched st) url in
        let st := log_fetch st url in
        match reply with
        | NetworkFailure => (Throw FetchRejected, st)
        | HttpResponse status statusText rawArrayBuffer =>
            if negb (response_ok status) then
              (Throw (FetchFailed status statusText), st)
            else
              match decode_blob cid rawArrayBuffer with
              | Throw e => (Throw e, st)
              | Return decompressedData =>
                  let blob := mkBlob decompressedData (content_type mimeType cid) in
                  let st := if blob_size blob <=? five_megabytes
                            then storeBlob cid blob st else st in
                  (Return (mkResponse (blob_bytes blob)
                             (content_type mimeType cid)
                             "public, max-age=3600" MISS), st)
              end
        end
    end.

End Platform.

(** ** Control messages *)

(** [event.data] *)
Inductive Message : Type :=
| SET_MANIFEST (manifest : option WispDirectory)
    (pdsUrl did handle siteName : option string)
| CLEAR_MANIFEST
| CLEAR_CACHE
| GET_STATUS
| OtherMessage (type : string).

(** A message posted on [event.ports[0]]. *)
Inductive Reply : Type :=
| MANIFEST_SET (success : bool)
| MANIFEST_CLEARED (success : bool)
| CACHE_CLEARED (success : bool)
| STATUS (hasManifest : bool) (siteInfo : SiteInfo).

(** [x || null] *)
Definition or_null (x : option string) : option string :=
  if truthy x then x else None.

(** [handleMessage(event)]: the new state and the replies posted.  The
    four [if] statements of the source test the same [data.type], so at
    most one of them runs. *)
Definition handleMessage (data : Message) (st : State) : State * list Reply :=
  match data with
  | SET_MANIFEST manifest newPdsUrl newDid handle siteName =>
      let st := mkState manifest newPdsUrl newDid (or_null handle)
                  (or_null siteName) (db st) (manifests st) (blobs st)
                  (fetched st) in
      let st := storeManifest manifest st in
      let st := storeSiteInfo
                  (mkSiteInfo (pdsUrl st) (did st) (currentHandle st)
                     (currentSiteName st)) st in
      (st, [MANIFEST_SET true])
  | CLEAR_MANIFEST =>
      let st := mkState None None None None None (db st) (manifests st)
                  (blobs st) (fetched st) in
      let st := if db st
                then set_manifests st
                       (delete SITE_INFO_KEY (delete MANIFEST_KEY (manifests st)))
                else st in
      (st, [MANIFEST_CLEARED true])
  | CLEAR_CACHE =>
      let st := if db st then set_blobs st ∅ else st in
      (st, [CACHE_CLEARED true])
  | GET_STATUS =>
      (st, [STATUS (bool_decide (is_Some (currentManifest st)))
              (mkSiteInfo (pdsUrl st) (did st) (currentHandle st)
                 (currentSiteName st))])
  | OtherMessage _ => (st, [])
  end.

(** ** Sessions *)

(** What happens to the worker in a session: a blob is fetched or a control
    message is handled. *)
Inductive Event : Type :=
| Fetch (cid : string) (mimeType : option string)
| Control (data : Message).

Definition run_event (platform : Platform) (st : State) (e : Event) : State :=
  match e with
  | Fetch cid mimeType => (fetchBlobFromPDS platform cid mimeType st).2
  | Control data => (handleMessage data st).1
  end.

Definition run_session (platform : Platform) (session : list Event)
  (st : State) : State :=
  fold_left (run_event platform) session st.

(** ** Rewriting HTML *)

Definition dq : string := String "034" EmptyString.
Definition nl : string := String "010" EmptyString.
Definition times : string := String "215" EmptyString.

(** [getOverlayScript()]: the text of the inlined overlay script. *)
Definition getOverlayScript : string :=
  String.concat EmptyString [
    "(function(){'use strict';if(document.getElementById('wisp-overlay-";
    "container'))return;const e=document.createElement('div');e.id='wis";
    "p-overlay-container';const t=`"; nl;
    "#wisp-overlay-container{pointer-events: none;position:fixed;bottom";
    ":16px;left:0;width:100vw;display:flex;justify-content:center;align";
    "-items:center;z-index:2147483647;font-family:system-ui,-apple-syst";
    "em,BlinkMacSystemFont,'Segoe UI',Roboto,sans-serif}"; nl;
    "#wisp-back-button{pointer-events: all;display:flex;align-items:cen";
    "ter;gap:8px;padding:8px 16px;background:rgba(255,255,255,.95);back";
    "drop-filter:blur(4px);box-shadow:0 4px 12px rgba(0,0,0,.15);border";
    "-radius:8px;border:1px solid rgba(0,0,0,.1);cursor:pointer;font-si";
    "ze:14px;font-weight:500;color:#374151;transition:all .2s ease;text";
    "-decoration:none}"; nl;
    "#wisp-back-button:hover{background:#fff;color:#111827;box-shadow:0";
    " 6px 16px rgba(0,0,0,.2)}"; nl;
    "#wisp-back-button:active{transform:translateY(1px)}"; nl;
    "#wisp-back-button svg{width:20px;height:20px}"; nl;
    "#wisp-overlay-container #wisp-close-button{position:absolute;top:-";
    "8px;right:-8px;width:20px;height:20px;background:#ef4444;color:#ff";
    "f;border:0;border-radius:50%;cursor:pointer;display:none;align-ite";
    "ms:center;justify-content:center;font-size:12px;font-weight:700;li";
    "ne-height:1}"; nl;
    "#wisp-overlay-container:hover #wisp-close-button{display:flex}"; nl;
    "#wisp-overlay-container #wisp-close-button:hover{background:#dc262";
    "6}"; nl;
    "`;const o=document.createElement('style');o.textContent=t,document";
    ".head.appendChild(o);const n=document.createElement('a');n.id='wis";
    "p-back-button',n.href='/',n.innerHTML=`<svg viewBox="; dq; "0 0 24 24";
    dq; " fill="; dq; "none"; dq; " stroke="; dq; "currentColor"; dq;
    " stroke-width="; dq; "2"; dq; " stroke-linecap="; dq; "round"; dq;
    " stroke-linejoin="; dq; "round"; dq; "><path d="; dq;
    "M19 12H5M12 19l-7-7 7-7"; dq;
    "/></svg><span>Back to Resolver</span>`;const i=document.createElem";
    "ent('button');i.id='wisp-close-button',i.innerHTML='"; times;
    "',i.title='Hide overlay',i.setAttribute('aria-label','Hide overlay";
    "'),i.addEventListener('click',function(t){t.preventDefault(),t.sto";
    "pPropagation(),e.remove()}),e.appendChild(n),e.appendChild(i);func";
    "tion r(){if(window.location.pathname.startsWith('/wisp/')){documen";
    "t.body.appendChild(e),e.style.opacity='0',e.style.transition='opac";
    "ity .3s ease',requestAnimationFrame(()=>{e.style.opacity='1'});var";
    " a=window.location.pathname.split('/');if(a.length>=4){var d=a[2],";
    "s=a[3],l='/wisp/'+d+'/'+s+'/';document.addEventListener('click',fu";
    "nction c(t){var n=t.target.closest('a');if(n){var h=n.getAttribute";
    "('href');if(h&&h.startsWith('/')&&!h.startsWith('//')&&!h.startsWi";
    "th('/wisp/')){var i=n.getAttribute('target');if(!i||'_blank'!==i){";
    "var b=n.getAttribute('download');if(!b){var o=h.includes('://');if";
    "(!o){if(n.id==='wisp-back-button'){console.log('[Wisp Overlay] Bac";
    "k button clicked, allowing default navigation to '+h);return}t.pre";
    "ventDefault(),t.stopPropagation();var f=l+h.replace(/^\//,'');n.hr";
    "ef=f,console.log('[Wisp Overlay] Rewrote link: '+h+' -> '+f),windo";
    "w.location.href=f}}}}}},false)}}}'loading'===document.readyState?d";
    "ocument.addEventListener('DOMContentLoaded',r):r()})();"
  ].

(** [/<base\s+[^>]*>/gi] *)
Definition base_tag_re : regex :=
  cats [lit true "<base"; plus is_ws; Rep true (none_of [">"%char]);
        chr ">"].

Definition quote (c : ascii) : bool := one_of ["'"%char; "034"%char] c.

(** The three groups of the pattern, with flags [gi], that finds an
    absolute path in an attribute: an opening [a], [link], [script], [img],
    [source], [iframe] or [embed] tag, white space, lazily any characters
    but the closing bracket, [href], [src] or [srcset], an equals sign
    between optional white space and a quote; then a slash and greedily
    any characters but quotes; then a quote. *)
Definition absolute_path_re : list regex :=
  [ cats [chr "<";
          alts (List.map (lit true)
                  ["a"; "link"; "script"; "img"; "source"; "iframe"; "embed"]);
          plus is_ws;
          Rep false (none_of [">"%char]);
          alts (List.map (lit true) ["href"; "src"; "srcset"]);
          Rep true is_ws; chr "="; Rep true is_ws; Chr quote];
    cats [chr "/"; Rep true (fun c => negb (quote c))];
    Chr quote ].

(** [(match, prefix, path, suffix) => prefix + path.substring(1) + suffix] *)
Definition drop_leading_slash (captures : list string) : string :=
  match captures with
  | [prefix; path; suffix] => prefix +:+ drop 1 path +:+ suffix
  | _ => String.concat EmptyString captures
  end.

(** [/(<head[^>]*>)/i], [/(<html[^>]*>)/i] and [/(<body[^>]*>)/] *)
Definition head_re : regex :=
  cats [lit true "<head"; Rep true (none_of [">"%char]); chr ">"].
Definition html_re : regex :=
  cats [lit true "<html"; Rep true (none_of [">"%char]); chr ">"].
Definition body_re : regex :=
  cats [lit false "<body"; Rep true (none_of [">"%char]); chr ">"].

(** [injectOverlayScript(html, sitePath)]; [sitePath] is only logged. *)
Definition injectOverlayScript (st : State) (html : string) : string :=
  let overlayScript := getOverlayScript in
  let scriptTag := "<script>" +:+ overlayScript +:+ "</script>" in
  let wispDid := or_else (did st) "unknown" in
  let wispSiteName := or_else (currentSiteName st) "site" in
  let baseUrl := "/wisp/" +:+ wispDid +:+ "/" +:+ wispSiteName +:+ "/" in
  let baseTag := "<base href=" +:+ dq +:+ baseUrl +:+ dq +:+ ">" in
  let result := html in
  let result := replace_all [base_tag_re] (fun _ => EmptyString) 0 result in
  let result := replace_all absolute_path_re drop_leading_slash 0 result in
  let result :=
    if test head_re result then
      replace_first [head_re] ("$1" +:+ nl +:+ "  " +:+ baseTag) result
    else if test html_re result then
      replace_first [html_re]
        ("$1" +:+ nl +:+ "<head>" +:+ nl +:+ "  " +:+ baseTag +:+ nl +:+ "</head>")
        result
    else
      "<!DOCTYPE html><html><head>" +:+ nl +:+ "  " +:+ baseTag +:+ nl
      +:+ "</head><body>" +:+ result +:+ "</body></html>" in
  if includes "</body>" result then
    replace_first_string "</body>" (scriptTag +:+ nl +:+ "</body>") result
  else if includes "<body" result then
    replace_first [body_re] ("$1" +:+ nl +:+ scriptTag) result
  else result +:+ scriptTag.

(** The number of base tags of a document, counted with the pattern the
    worker itself uses to recognise them. *)
Definition count_base_tags (html : string) : nat :=
  count_matches base_tag_re 0 html.


(** ** The other lookups and rewrites *)

(** [lookupIndexFile(manifest, dirPath)] *)
Definition lookupIndexFile (manifest : WispDirectory) (dirPath : string)
  : option WispFile :=
  let normalized := normalizePath dirPath in
  let segments :=
    List.filter (fun s => negb (String.eqb s "")) (split "/" normalized) in
  match traverse manifest segments with
  | None => None
  | Some current => first_found (file_named current) indexFiles
  end.

(** The groups of the pattern of [rewriteCssUrls], with flag [g]: [url(],
    an optional quote, a slash, one or more characters that are neither a
    quote nor a closing parenthesis (the path), an optional quote, a
    closing parenthesis. *)
Definition css_url_re : list regex :=
  [ lit false "url("; opt (Chr quote); chr "/";
    plus (fun c => negb (quote c || Ascii.eqb c ")"));
    opt (Chr quote); chr ")" ].

(** [(match, path) => 'url("' + path + '")'] *)
Definition quoted_url (captures : list string) : string :=
  match captures with
  | [_; _; _; path; _; _] => "url(" +:+ dq +:+ path +:+ dq +:+ ")"
  | _ => String.concat EmptyString captures
  end.

(** [rewriteCssUrls(css)] *)
Definition rewriteCssUrls (css : string) : string :=
  replace_all css_url_re quoted_url 0 css.

(** ** Handling a request *)

(** [getManifest()] and [getSiteInfo()].  Each key of the store is written
    by one function, with values of one kind; a value of the other kind
    is read as absent. *)
Definition getManifest (st : State) : option WispDirectory * State :=
  let st := ensure_db st in
  (match manifests st !! MANIFEST_KEY with
   | Some (StoredManifest manifest) => manifest
   | _ => None
   end, st).

Definition getSiteInfo (st : State) : option SiteInfo * State :=
  let st := ensure_db st in
  (match manifests st !! SITE_INFO_KEY with
   | Some (StoredSiteInfo info) => Some info
   | _ => None
   end, st).

(** The body of a reply: the bytes of a blob, a text, or the message of an
    error after [Service Worker Error: ]. *)
Inductive HandlerError : Type :=
| BlobFailure (error : SwError)
| NullManifest.

Inductive Body : Type :=
| BodyBytes (bytes : list Byte.byte)
| BodyText (text : string)
| BodyError (error : HandlerError).

(** A [Response] of the worker: its status, the headers the worker sets,
    and its body. *)
Record HttpReply : Type := mkReply {
  reply_status : Z;
  reply_headers : list (string * string);
  reply_body : Body
}.

(** What the worker does with a request: it hands it to the network as it
    is ([fetch(event.request)]), or it answers it. *)
Inductive Outcome : Type :=
| PassedThrough
| Replied (reply : HttpReply).

(** [s.endsWith(suffix)] *)
Fixpoint endsWith (suffix s : string) : bool :=
  String.eqb s suffix ||
  match s with
  | EmptyString => false
  | String _ s' => endsWith suffix s'
  end.

(** [l.sort()] on the strings [key x]: code units compared in order.  The
    sort is stable. *)
Fixpoint insert_sorted {A} (key : A -> string) (x : A) (l : list A) : list A :=
  match l with
  | [] => [x]
  | y :: l' =>
      if String.leb (key x) (key y) then x :: l
      else y :: insert_sorted key x l'
  end.

Definition sort_by {A} (key : A -> string) (l : list A) : list A :=
  foldr (insert_sorted key) [] l.

(** The string an entry [[name, file]] of [Object.entries] is compared
    as by the default sort. *)
Definition entry_key (entry : string * WispFile) : string :=
  entry.1 +:+ ",[object Object]".

(** The fixed parts of the page of [handleDirectoryListing]. *)
Definition listing_before_title : string :=
  String.concat EmptyString [
    "<!DOCTYPE html>"; nl; "<html>"; nl; "<head>"; nl; "  <title>Index of "
  ].

Definition listing_before_heading : string :=
  String.concat EmptyString [
    "</title>"; nl; "  <style>"; nl;
    "    body { font-family: system-ui, sans-serif; max-width: 80";
    "0px; margin: 2rem auto; padding: 0 1rem; }"; nl;
    "    h1 { border-bottom: 1px solid #ccc; padding-bottom: 0.5r"; "em; }";
    nl; "    ul { list-style: none; padding: 0; }"; nl;
    "    li { padding: 0.5rem 0; border-bottom: 1px solid #eee; }"; nl;
    "    a { color: #0066cc; text-decoration: none; }"; nl;
    "    a:hover { text-decoration: underline; }"; nl;
    "    .size { color: #666; margin-left: 1rem; }"; nl; "  </style>"; nl;
    "</head>"; nl; "<body>"; nl; "  <h1>Index of "
  ].

Definition listing_before_items : string :=
  String.concat EmptyString [
    "</h1>"; nl; "  <ul>"
  ].

Definition listing_after_items : string :=
  String.concat EmptyString [
    "  </ul>"; nl; "</body>"; nl; "</html>"
  ].

Definition non_empty (s : string) : bool := negb (String.eqb s "").

(** [handleDirectoryListing(path)] *)
Definition handleDirectoryListing (st : State) (path : string)
  : HandlerError + HttpReply :=
  match currentManifest st with
  | None => inl NullManifest
  | Some manifest =>
      let normalized := normalizePath path in
      let segments := split "/" normalized in
      match traverse manifest (List.filter non_empty segments) with
      | None => inr (mkReply 404 [] (BodyText "Directory not found"))
      | Some current =>
          let listed_files := map_to_list (default ∅ (files current)) in
          let listed_dirs := keys (default ∅ (dirs current)) in
          let title := or_else (Some path) "/" in
          let html :=
            listing_before_title +:+ title +:+ listing_before_heading
            +:+ title +:+ listing_before_items in
          let html :=
            match segments with
            | [] => html
            | _ =>
                let parentPath := join "/" (removelast segments) in
                html +:+ "<li><a href=" +:+ dq +:+ "/" +:+ parentPath +:+ dq
                +:+ ">../</a></li>"
            end in
          let html :=
            fold_left
              (fun html dir =>
                 let dirPath := join "/" (segments ++ [dir]) in
                 html +:+ "<li><a href=" +:+ dq +:+ "/" +:+ dirPath +:+ "/"
                 +:+ dq +:+ ">" +:+ dir +:+ "/</a></li>")
              (sort_by id listed_dirs) html in
          let html :=
            fold_left
              (fun html entry =>
                 let filePath := join "/" (segments ++ [entry.1]) in
                 html +:+ "<li><a href=" +:+ dq +:+ "/" +:+ filePath +:+ dq
                 +:+ ">" +:+ entry.1 +:+ "</a></li>")
              (sort_by entry_key listed_files) html in
          let html := html +:+ listing_after_items in
          let html := injectOverlayScript st html in
          inr (mkReply 200
                 [ ("Content-Type", "text/html; charset=utf-8");
                   ("Cache-Control", "no-cache");
                   ("X-Wisp-Overlay", "injected") ]
                 (BodyText html))
      end
  end.

(** The groups of the pattern of wisp paths, matched at the start of the
    path: [/wisp/], one or more characters other than a slash (the DID), a
    slash, one or more characters other than a slash (the site name), an
    optional slash, any characters but line terminators (the path), the
    end of the string. *)
Definition not_slash (c : ascii) : bool := negb (Ascii.eqb c "/").
Definition not_line_terminator (c : ascii) : bool :=
  negb ((nat_of_ascii c =? 10)%nat || (nat_of_ascii c =? 13)%nat).

Definition wisp_path_re : list regex :=
  [ lit false "/wisp/"; plus not_slash; chr "/"; plus not_slash;
    opt (chr "/"); Rep true not_line_terminator; Eos ].

(** [path.match(...)]: [requestDid], [requestSiteName] and
    [actualPath || '']. *)
Definition parse_wisp_path (path : string) : option (string * string * string) :=
  match exec_groups wisp_path_re path with
  | Some ([_; requestDid; _; requestSiteName; _; actualPath; _], _) =>
      Some (requestDid, requestSiteName, actualPath)
  | _ => None
  end.

(** The start of [handleFetch] when no manifest is in memory: the manifest
    and the site information are read from the store. *)
Definition rehydrate (st : State) : State :=
  match currentManifest st with
  | Some _ => st
  | None =>
      let '(manifest, st) := getManifest st in
      let '(siteInfo, st) := getSiteInfo st in
      match siteInfo with
      | Some info =>
          mkState manifest (si_pdsUrl info) (si_did info) (si_handle info)
            (si_siteName info) (db st) (manifests st) (blobs st) (fetched st)
      | None =>
          mkState manifest (pdsUrl st) (did st) (currentHandle st)
            (currentSiteName st) (db st) (manifests st) (blobs st) (fetched st)
      end
  end.

(** What a path resolves to: a file to serve, the listing of a directory,
    or nothing. *)
Inductive Resolution : Type :=
| Serve (file : WispFile)
| Listing
| NotFound.

Definition is_directory (manifest : WispDirectory) (requestPath : string) : bool :=
  bool_decide (is_Some (traverse manifest
                          (List.filter non_empty (split "/" requestPath)))).

(** The lookups of [handleFetch], in their order: the file itself, the
    index file of the directory, the listing of the directory, the file
    with [.html] appended. *)
Definition resolve (manifest : WispDirectory) (requestPath : string)
  : Resolution :=
  match lookupFile manifest requestPath with
  | Some file => Serve file
  | None =>
      match lookupIndexFile manifest requestPath with
      | Some indexFile => Serve indexFile
      | None =>
          if is_directory manifest requestPath then Listing
          else
            match lookupFile manifest (requestPath +:+ ".html") with
            | Some htmlFile => Serve htmlFile
            | None => NotFound
            end
      end
  end.

Definition text_reply (status : Z) (text : string) : HttpReply :=
  mkReply status [("Content-Type", "text/plain")] (BodyText text).

Definition has_type (prefix : string) (mimeType : option string) : bool :=
  match mimeType with
  | Some m => startsWith prefix m
  | None => false
  end.

(** The end of [handleFetch]: the response of [fetchBlobFromPDS] for
    [file], rewritten when the file is HTML or CSS. *)
Definition serve_response (platform : Platform) (st : State)
  (file : WispFile) (requestPath : string) (response : Response) : HttpReply :=
  if has_type "text/html" (mimeType file) || endsWith ".html" requestPath
     || endsWith ".htm" requestPath then
    let htmlText := textDecode platform (body response) in
    mkReply 200
      [ ("Content-Type", "text/html; charset=utf-8");
        ("Cache-Control", "no-cache");
        ("X-Wisp-Overlay", "injected");
        ("X-Wisp-Base", default "null" (pdsUrl st)) ]
      (BodyText (injectOverlayScript st htmlText))
  else if has_type "text/css" (mimeType file) || endsWith ".css" requestPath then
    let cssText := textDecode platform (body response) in
    mkReply 200
      [ ("Content-Type", "text/css; charset=utf-8");
        ("Cache-Control", "public, max-age=3600");
        ("X-Wisp-Rewritten-Urls", "true") ]
      (BodyText (rewriteCssUrls cssText))
  else
    mkReply 200
      [ ("Content-Type", contentType response);
        ("Cache-Control", cacheControl response);
        ("X-Wisp-Cache", match wispCache response with
                         | HIT => "HIT"
                         | MISS => "MISS"
                         end) ]
      (BodyBytes (body response)).

(** [handleFetch(event)] on the path [url.pathname] of the request. *)
Definition handleFetch (platform : Platform) (path : string) (st : State)
  : (HandlerError + Outcome) * State :=
  if negb (startsWith "/wisp/" path) then (inr PassedThrough, st)
  else
    match parse_wisp_path path with
    | None => (inr PassedThrough, st)
    | Some (requestDid, requestSiteName, requestPath) =>
        let st := rehydrate st in
        match currentManifest st with
        | None =>
            (inr (Replied
                    (text_reply 503
                       "No manifest loaded. Please load a site first.")), st)
        | Some manifest =>
            if truthy (did st)
               && negb (String.eqb (default "" (did st)) requestDid) then
              (inr (Replied
                      (text_reply 400
                         "Site mismatch. Please navigate from the resolver.")),
               st)
            else
              match resolve manifest requestPath with
              | Listing =>
                  (match handleDirectoryListing st requestPath with
                   | inl e => inl e
                   | inr reply => inr (Replied reply)
                   end, st)
              | NotFound => (inr (Replied (text_reply 404 "File not found")), st)
              | Serve file =>
                  let '(completion, st) :=
                    fetchBlobFromPDS platform (cid file) (mimeType file) st in
                  match completion with
                  | Throw e => (inl (BlobFailure e), st)
                  | Return response =>
                      (inr (Replied
                              (serve_response platform st file requestPath
                                 response)), st)
                  end
              end
        end
    end.

(** The [fetch] listener: [handleFetch(event).catch(...)] answers an error
    with a 500. *)
Definition onFetch (platform : Platform) (path : string) (st : State)
  : Outcome * State :=
  match handleFetch platform path st with
  | (inl e, st') => (Replied (mkReply 500 [("Content-Type", "text/plain")]
                               (BodyError e)), st')
  | (inr outcome, st') => (outcome, st')
  end.

(** The worker is stopped and started again: its variables are reset, the
    stores are kept. *)
Definition restart (st : State) : State :=
  mkState None None None None None false (manifests st) (blobs st) (fetched st).

(** ** Sessions of requests *)

(** What happens to the worker: a request for a path arrives, a control
    message arrives, or the browser stops the worker and starts it again. *)
Inductive WorkerEvent : Type :=
| Requested (path : string)
| Posted (data : Message)
| Stopped.

Definition serve_event (platform : Platform) (st : State) (e : WorkerEvent)
  : State :=
  match e with
  | Requested path => (onFetch platform path st).2
  | Posted data => (handleMessage data st).1
  | Stopped => restart st
  end.

Definition serve_session (platform : Platform) (session : list WorkerEvent)
  (st : State) : State :=
  fold_left (serve_event platform) session st.

End ServiceWorker.

(* ===================================================================== *)
(** * The client of the service worker: wisp paths *)
(* ===================================================================== *)

Module ServiceWorkerManager.
Import JsString JsRegExp.





End ServiceWorkerManager.

(* ===================================================================== *)
(** * Example values *)
(* ===================================================================== *)

Module Examples.
Import Lexicon ServiceWorker.

(** A site with the single file [a/b.html], of content identifier [C]. *)
Definition page : WispFile := mkWispFile "C" None None.
Definition site : WispDirectory :=
  mkDir None (Some {[ "a" := mkDir (Some {[ "b.html" := page ]}) None ]}).

(** A site whose root has [index.htm] but no [index.html]. *)
Definition index_htm : WispFile := mkWispFile "I" (Some "text/html") None.
Definition home : WispDirectory :=
  mkDir (Some {[ "index.htm" := index_htm ]}) (Some {[ "a" := site ]}).

(** Two trees with a common directory [a] and no common file. *)
Definition left_tree : WispDirectory :=
  mkDir (Some {[ "x" := mkWispFile "X" None None ]})
        (Some {[ "a" := mkDir (Some {[ "b.html" := page ]}) None ]}).
Definition right_tree : WispDirectory :=
  mkDir None
        (Some {[ "a" := mkDir (Some {[ "c.css" := mkWispFile "Y" None None ]}) None ]}).

(** An operation that fails twice with a 503 and then resolves; its world
    counts the invocations. *)
Definition flaky (calls : nat) : (string + Retry.JsError) * nat :=
  if (calls <? 2)%nat
  then (inr (Retry.ErrorObject "FetchError" "Service Unavailable" (Some 503)),
        S calls)
  else (inl "ok", S calls).

(** Options that allow no attempt at all. *)
Definition no_attempts : Retry.RetryOptions :=
  Retry.mkRetryOptions 0 1000 10000 2 Retry.defaultShouldRetry.

(** A network that answers every request with the same three bytes, and a
    platform that decodes bytes as code units and has no decompressor. *)
Definition payload : list Byte.byte := [Byte.x3c; Byte.x70; Byte.x3e].
Definition steady_network (sent : list string) (url : string) : NetworkReply :=
  HttpResponse 200 "OK" payload.
Definition steady_platform : Platform :=
  mkPlatform steady_network String.string_of_list_byte (fun _ => None) None None.

(** A worker that has just started, configured for a site, with empty
    stores. *)
Definition configured : State :=
  mkState (Some site) (Some "https://pds.example") (Some "did:plc:xyz")
    None (Some "mysite") false ∅ ∅ [].

(** A worker that has just started (its variables are reset and it holds
    no database connection) and whose blob store still holds an entry
    cached earlier. *)
Definition restarted : State :=
  mkState None None None None None false ∅
    {[ "C" := mkBlob payload "text/html" ]} [].

(** A configured worker whose blob store holds [C]. *)
Definition restocked : State :=
  mkState (Some site) (Some "https://pds.example") (Some "did:plc:xyz")
    None (Some "mysite") false ∅ {[ "C" := mkBlob payload "text/html" ]} [].

(** A document in which a base tag is split by another base tag. *)
Definition nested_base : string := "<ba<base x>se href=/evil/>".

(** A configured worker that holds a database connection. *)
Definition connected : State :=
  mkState (Some site) (Some "https://pds.example") (Some "did:plc:xyz")
    None (Some "mysite") true ∅ ∅ [].

(** A worker that was sent the site and then stopped and started again:
    its variables are reset, the store of manifests holds the site. *)
Definition revived : State :=
  restart (handleMessage
             (SET_MANIFEST (Some site) (Some "https://pds.example")
                (Some "did:plc:xyz") None (Some "mysite")) configured).1.


(** A directory in the new format: a file [x], whose type is on its blob,
    a directory [d] with a style sheet, and an entry of an unknown type;
    and what it converts to. *)
Definition new_site : WispNode :=
  DirectoryNode "directory"
    (Some [ ("x", FileNode "file" (Link "c1") (Some "text/plain") (Some 3) None);
            ("d", DirectoryNode "place.wisp.fs#directory"
                    (Some [ ("y.css", FileNode "place.wisp.fs#file"
                                        (CidObject "c2") None None
                                        (Some "text/css")) ]));
            ("z", FileNode "symlink" OtherRef None None None) ]).

Definition old_site : WispDirectory :=
  mkDir (Some {[ "x" := mkWispFile "c1" (Some "text/plain") (Some 3) ]})
        (Some {[ "d" := mkDir (Some {[ "y.css" := mkWispFile "c2" (Some "text/css")
                                                    None ]})
                              (Some ∅) ]}).

(** A style sheet whose only URL is a data URL. *)
Definition data_url_css : string :=
  "a{background:url(data:image/png;base64,AAAA)}".

End Examples.

(* ===================================================================== *)
(** * Facts about strings *)
(* ===================================================================== *)

Section StringFacts.
Import JsString.

Lemma split_not_nil sep s : split sep s <> [].
Proof.
  destruct s as [|c s]; simpl; [done|].
  destruct (Ascii.eqb c sep); [done|]. by destruct (split sep s).
Qed.

Lemma split_sep_cons sep s : split sep (String sep s) = EmptyString :: split sep s.
Proof. simpl. by rewrite Ascii.eqb_refl. Qed.

Lemma split_app_sep sep s t :
  split sep (s +:+ String sep t) = split sep s ++ split sep t.
Proof.
  induction s as [|c s IH]; simpl.
  - by rewrite Ascii.eqb_refl.
  - rewrite IH. destruct (Ascii.eqb c sep); [done|].
    pose proof (split_not_nil sep s) as Hne.
    by destruct (split sep s).
Qed.

Lemma split_without_sep sep s : has_char sep s = false -> split sep s = [s].
Proof.
  induction s as [|c s IH]; simpl; [done|].
  intros [Hc Hs]%orb_false_elim. rewrite Hc, (IH Hs). done.
Qed.

Lemma split_segments_without_sep sep s :
  Forall (fun x => has_char sep x = false) (split sep s).
Proof.
  induction s as [|c s IH]; simpl.
  - by repeat constructor.
  - destruct (Ascii.eqb c sep) eqn:Hc.
    + by constructor.
    + pose proof (split_not_nil sep s) as Hne.
      destruct (split sep s) as [|h t]; [done|].
      inversion IH; subst. constructor; [|done]. simpl. by rewrite Hc.
Qed.

Lemma split_join sep l :
  l <> [] -> Forall (fun x => has_char sep x = false) l ->
  split sep (join (String sep EmptyString) l) = l.
Proof.
  induction l as [|x l IH]; [done|]. intros _ Hall.
  inversion Hall as [|? ? Hx Hl]; subst.
  destruct l as [|y l].
  - simpl. by apply split_without_sep.
  - change (join (String sep "") (x :: y :: l))
      with (x +:+ String sep (join (String sep "") (y :: l))).
    rewrite split_app_sep, (split_without_sep _ _ Hx), IH; done.
Qed.

Lemma trimStart_fixed_cons c s : trimStart (String c s) = String c s -> is_ws c = false.
Proof.
  simpl. destruct (is_ws c); [|done]. intros H.
  assert (Hlen : (String.length (trimStart s) <= String.length s)%nat).
  { clear. induction s as [|a s IH]; simpl; [lia|]. destruct (is_ws a); simpl; lia. }
  rewrite H in Hlen. simpl in Hlen. lia.
Qed.

Lemma trimStart_length s : (String.length (trimStart s) <= String.length s)%nat.
Proof. induction s as [|a s IH]; simpl; [lia|]. destruct (is_ws a); simpl; lia. Qed.

Lemma trimEnd_length s : (String.length (trimEnd s) <= String.length s)%nat.
Proof.
  induction s as [|a s IH]; simpl; [lia|].
  destruct (trimEnd s); [destruct (is_ws a)|]; simpl in *; lia.
Qed.

Lemma trimStart_same_length s :
  String.length (trimStart s) = String.length s -> trimStart s = s.
Proof.
  destruct s as [|a s]; simpl; [done|]. destruct (is_ws a); [|done].
  pose proof (trimStart_length s). lia.
Qed.

Lemma trim_fixed s : trim s = s -> trimStart s = s /\ trimEnd s = s.
Proof.
  unfold trim. intros H.
  assert (Hs : trimStart s = s).
  { apply trimStart_same_length.
    pose proof (trimEnd_length (trimStart s)). pose proof (trimStart_length s).
    rewrite H in *. lia. }
  split; [done|]. by rewrite Hs in H.
Qed.

Lemma trimEnd_cons_not_ws c s :
  is_ws c = false -> trimEnd (String c s) = String c (trimEnd s).
Proof. intros Hc. simpl. rewrite Hc. by destruct (trimEnd s). Qed.

Lemma trimEnd_snoc_not_ws c s :
  is_ws c = false -> trimEnd (s +:+ String c EmptyString) = s +:+ String c EmptyString.
Proof.
  intros Hc. induction s as [|a s IH]; simpl.
  - by rewrite Hc.
  - rewrite IH. by destruct s.
Qed.

Lemma trim_slash_prefix s : trim s = s -> trim (String "/" s) = String "/" s.
Proof.
  intros [_ He]%trim_fixed. unfold trim.
  change (trimStart (String "/" s)) with (String "/" s).
  by rewrite trimEnd_cons_not_ws, He.
Qed.

Lemma trim_slash_suffix s : trim s = s -> trim (s +:+ "/") = s +:+ "/".
Proof.
  intros [Hs _]%trim_fixed. unfold trim.
  assert (Hst : trimStart (s +:+ "/") = s +:+ "/").
  { destruct s as [|c s]; [done|].
    apply trimStart_fixed_cons in Hs. simpl. by rewrite Hs. }
  rewrite Hst. by apply trimEnd_snoc_not_ws.
Qed.

End StringFacts.

(* ===================================================================== *)
(** * Facts about [normalizePath] of the lexicon *)
(* ===================================================================== *)

Section NormalizeFacts.
Import JsString Lexicon.

Lemma removelast_Forall {A} (P : A -> Prop) (l : list A) :
  Forall P l -> Forall P (removelast l).
Proof.
  induction 1 as [|x l Hx Hl IH]; simpl; [constructor|].
  destruct l; [constructor|]. by constructor.
Qed.

Lemma normalize_loop_clean segs : forall acc,
  Forall clean_segment acc ->
  Forall (fun s => keep_segment s = true /\ has_char "/" s = false) segs ->
  Forall clean_segment (fold_left normalize_step segs acc).
Proof.
  induction segs as [|s segs IH]; intros acc Hacc Hsegs; simpl; [done|].
  inversion Hsegs as [|? ? [Hk Hn] Hrest]; subst.
  apply IH; [|done]. unfold normalize_step.
  destruct (String.eqb s "..") eqn:Hdd.
  - by apply removelast_Forall.
  - apply Forall_app; split; [done|]. repeat constructor; done.
Qed.

Lemma normalize_loop_push segs : forall acc,
  Forall clean_segment segs -> fold_left normalize_step segs acc = acc ++ segs.
Proof.
  induction segs as [|s segs IH]; intros acc Hsegs; simpl.
  - by rewrite app_nil_r.
  - inversion Hsegs as [|? ? (Hk & Hdd & Hn) Hrest]; subst.
    unfold normalize_step at 2. rewrite Hdd, IH by done.
    by rewrite <- app_assoc.
Qed.

Lemma filter_keep_clean segs :
  Forall clean_segment segs -> List.filter keep_segment segs = segs.
Proof.
  induction 1 as [|s segs (Hk & _) _ IH]; simpl; [done|]. by rewrite Hk, IH.
Qed.

Lemma filter_split_clean s :
  Forall (fun s => keep_segment s = true /\ has_char "/" s = false)
    (List.filter keep_segment (split "/" s)).
Proof.
  pose proof (split_segments_without_sep "/" s) as H.
  induction H as [|x l Hx Hl IH]; simpl; [constructor|].
  destruct (keep_segment x) eqn:Hk; [|done]. by constructor.
Qed.

Lemma normal_segments_clean path : Forall clean_segment (normal_segments path).
Proof. apply normalize_loop_clean; [constructor|apply filter_split_clean]. Qed.

Lemma normalizePath_join_clean segs :
  Forall clean_segment segs ->
  trim (join "/" segs) = join "/" segs ->
  normalizePath (join "/" segs) = join "/" segs.
Proof.
  intros Hclean Htrim. unfold normalizePath. rewrite Htrim.
  destruct segs as [|x segs]; [done|].
  rewrite (split_join "/") by (done || (eapply Forall_impl; [exact Hclean|]; by intros ? (_ & _ & ?))).
  by rewrite filter_keep_clean, normalize_loop_push.
Qed.

Lemma normalizePath_idempotent_when_trimmed p :
  trim (normalizePath p) = normalizePath p ->
  normalizePath (normalizePath p) = normalizePath p.
Proof.
  intros H. apply normalizePath_join_clean; [apply normal_segments_clean|exact H].
Qed.

Lemma normalizePath_leading_slash p :
  trim p = p -> normalizePath (String "/" p) = normalizePath p.
Proof.
  intros H. unfold normalizePath.
  rewrite (trim_slash_prefix _ H), H, split_sep_cons. done.
Qed.

Lemma normalizePath_trailing_slash p :
  trim p = p -> normalizePath (p +:+ "/") = normalizePath p.
Proof.
  intros H. unfold normalizePath.
  rewrite (trim_slash_suffix _ H), H, split_app_sep, List.filter_app. simpl.
  by rewrite app_nil_r.
Qed.

End NormalizeFacts.


(* ===================================================================== *)
(** * Facts about the path lookup of the service worker *)
(* ===================================================================== *)

Section WorkerPathFacts.
Import JsString Lexicon ServiceWorker.

Lemma strip_trailing_slash_length s :
  (String.length (strip_trailing_slash s) <= String.length s)%nat.
Proof.
  induction s as [|c s IH]; simpl; [lia|].
  destruct s as [|d s]; [destruct (Ascii.eqb c "/"); simpl; lia|].
  simpl in *. lia.
Qed.

Lemma strip_trailing_slash_same_length s :
  String.length (strip_trailing_slash s) = String.length s ->
  strip_trailing_slash s = s.
Proof.
  induction s as [|c s IH]; [done|].
  destruct s as [|d s].
  - simpl. destruct (Ascii.eqb c "/"); simpl; [lia|done].
  - change (strip_trailing_slash (String c (String d s)))
      with (String c (strip_trailing_slash (String d s))).
    simpl String.length. intros H. f_equal. apply IH. simpl. lia.
Qed.

Lemma take_until_length stop s :
  (String.length (take_until stop s) <= String.length s)%nat.
Proof. induction s as [|c s IH]; simpl; [lia|]. destruct (stop c); simpl; lia. Qed.

Lemma take_until_same_length stop s :
  String.length (take_until stop s) = String.length s -> take_until stop s = s.
Proof.
  induction s as [|c s IH]; simpl; [done|].
  destruct (stop c); simpl; [lia|]. intros H. f_equal. apply IH. lia.
Qed.

Lemma strip_leading_slash_length s :
  (String.length (strip_leading_slash s) <= String.length s)%nat.
Proof. destruct s as [|c s]; simpl; [lia|]. destruct (Ascii.eqb c "/"); simpl; lia. Qed.

Lemma startsWith_slash_cons c s :
  startsWith "/" (String c s) = Ascii.eqb c "/".
Proof.
  change (startsWith "/" (String c s)) with (Ascii.eqb "/" c && true).
  by rewrite andb_true_r, Ascii.eqb_sym.
Qed.

Lemma strip_leading_slash_same_length s :
  String.length (strip_leading_slash s) = String.length s ->
  startsWith "/" s = false.
Proof.
  destruct s as [|c s]; [done|]. rewrite startsWith_slash_cons.
  cbn [strip_leading_slash]. destruct (Ascii.eqb c "/"); simpl; [lia|done].
Qed.

Lemma strip_leading_slash_id s : startsWith "/" s = false -> strip_leading_slash s = s.
Proof.
  destruct s as [|c s]; [done|]. rewrite startsWith_slash_cons.
  cbn [strip_leading_slash]. by intros ->.
Qed.

(** A path is a fixed point of the worker's [normalizePath] exactly when it
    has no slash at either end and neither [?] nor [#]. *)
Lemma worker_normal_form p :
  ServiceWorker.normalizePath p = p ->
  startsWith "/" p = false /\ take_until is_query_or_hash p = p
  /\ strip_trailing_slash p = p.
Proof.
  unfold ServiceWorker.normalizePath.
  destruct (String.eqb_spec p "") as [->|Hne]; [done|].
  destruct (String.eqb_spec p "/") as [->|Hns]; [done|]. simpl.
  intros H.
  pose proof (strip_trailing_slash_length
                (take_until is_query_or_hash (strip_leading_slash p))) as L1.
  pose proof (take_until_length is_query_or_hash (strip_leading_slash p)) as L2.
  pose proof (strip_leading_slash_length p) as L3.
  rewrite H in L1.
  assert (Hlead : startsWith "/" p = false)
    by (apply strip_leading_slash_same_length; lia).
  rewrite (strip_leading_slash_id _ Hlead) in *.
  assert (Hcut : take_until is_query_or_hash p = p)
    by (apply take_until_same_length; lia).
  rewrite Hcut in H. done.
Qed.

Lemma worker_normalizePath_leading_slash p :
  startsWith "/" p = false ->
  ServiceWorker.normalizePath (String "/" p) = ServiceWorker.normalizePath p.
Proof.
  intros H. unfold ServiceWorker.normalizePath.
  destruct p as [|c p]; [done|].
  rewrite startsWith_slash_cons in H.
  assert (Hne : String.eqb (String c p) "/" = false).
  { apply String.eqb_neq. intros [= -> ->]. done. }
  rewrite Hne. cbn [String.eqb orb strip_leading_slash].
  rewrite Ascii.eqb_refl, H.
  by destruct (Ascii.eqb "/" "/")%char.
Qed.

Lemma take_until_app_stop stop s c t :
  stop c = true -> take_until stop (s +:+ String c t) = take_until stop s.
Proof.
  intros Hc. induction s as [|a s IH]; simpl; [by rewrite Hc|].
  by rewrite IH.
Qed.

Lemma strip_trailing_slash_snoc s :
  strip_trailing_slash (s +:+ "/") = s.
Proof.
  induction s as [|a s IH]; [done|].
  simpl. rewrite IH. by destruct s.
Qed.

Lemma take_until_app_clean stop s t :
  take_until stop s = s -> take_until stop (s +:+ t) = s +:+ take_until stop t.
Proof.
  induction s as [|a s IH]; simpl; [done|].
  destruct (stop a); [done|]. intros [= H]. by rewrite (IH H).
Qed.

Lemma worker_normalizePath_trailing_slash p :
  ServiceWorker.normalizePath p = p ->
  ServiceWorker.normalizePath (p +:+ "/") = ServiceWorker.normalizePath p.
Proof.
  intros Hp. destruct (worker_normal_form p Hp) as (Hlead & Hcut & Htrail).
  rewrite Hp. unfold ServiceWorker.normalizePath.
  destruct p as [|c p]; [done|].
  pose proof Hlead as Hc. rewrite startsWith_slash_cons in Hc.
  assert (Hne : String.eqb (String c p +:+ "/") "/" = false).
  { apply String.eqb_neq. intros [= -> _]. done. }
  assert (Hne' : String.eqb (String c p +:+ "/") "" = false) by done.
  rewrite Hne, Hne'. cbn [orb].
  rewrite strip_leading_slash_id
    by (change (String c p +:+ "/") with (String c (p +:+ "/"));
        by rewrite startsWith_slash_cons).
  rewrite (take_until_app_clean _ _ _ Hcut). simpl take_until.
  apply strip_trailing_slash_snoc.
Qed.

Lemma worker_normalizePath_suffix p c q :
  is_query_or_hash c = true ->
  ServiceWorker.normalizePath (p +:+ String c q) = ServiceWorker.normalizePath p.
Proof.
  intros Hc. unfold ServiceWorker.normalizePath.
  assert (Hcs : Ascii.eqb c "/" = false).
  { unfold is_query_or_hash in Hc.
    destruct (Ascii.eqb_spec c "/") as [->|]; [done|done]. }
  destruct p as [|a p].
  - simpl. rewrite Hcs. destruct q; simpl; by rewrite Hc.
  - destruct (String.eqb_spec (String a p) "/") as [[= -> ->]|Hns].
    + simpl. by rewrite Hc.
    + assert (Hne : String.eqb (String a p +:+ String c q) "/" = false).
      { apply String.eqb_neq. destruct p; simpl; intros Heq; by inversion Heq. }
      rewrite Hne. simpl orb. cbv iota.
      assert (Hl : strip_leading_slash (String a p +:+ String c q)
                   = strip_leading_slash (String a p) +:+ String c q).
      { simpl. by destruct (Ascii.eqb a "/"). }
      by rewrite Hl, take_until_app_stop.
Qed.

Lemma lookupFile_by_normal_form T p p' :
  ServiceWorker.normalizePath p = ServiceWorker.normalizePath p' ->
  lookupFile T p = lookupFile T p'.
Proof. intros H. unfold lookupFile. by rewrite H. Qed.

Lemma lookupPath_by_normal_form T p p' :
  Lexicon.normalizePath p = Lexicon.normalizePath p' ->
  lookupPath T p = lookupPath T p'.
Proof. intros H. unfold lookupPath. by rewrite H. Qed.

(** The recursive equation of [lookupFile] in the source. *)
Lemma lookupFile_equation manifest path :
  lookupFile manifest path =
  let normalized := ServiceWorker.normalizePath path in
  if String.eqb normalized "" then first_found (lookupFile manifest) indexFiles
  else lookup_segments manifest normalized.
Proof. reflexivity. Qed.

Lemma lookupFile_root T p :
  ServiceWorker.normalizePath p = "" ->
  lookupFile T p =
  match file_named T "index.html" with
  | Some entry => Some entry
  | None => file_named T "index.htm"
  end.
Proof.
  intros H. unfold lookupFile. rewrite H. simpl.
  unfold lookup_segments. simpl. by destruct (file_named T "index.htm").
Qed.

Lemma lookupPath_root T p :
  Lexicon.normalizePath p = "" -> lookupPath T p = Some (listing T).
Proof. intros H. unfold lookupPath. by rewrite H. Qed.

End WorkerPathFacts.


(* ===================================================================== *)
(** * Path lookup: the claims *)
(* ===================================================================== *)

Section LookupClaims.
Import JsString Lexicon ServiceWorker.

Lemma file_at_traverse T segs entry :
  file_at T segs = Some entry ->
  exists d, traverse T (removelast segs) = Some d
            /\ file_named d (List.last segs "") = Some entry.
Proof.
  revert T. induction segs as [|s segs IH]; intros T; [done|].
  destruct segs as [|s' segs].
  - simpl. intros H. by exists T.
  - change (file_at T (s :: s' :: segs))
      with (match dir_named T s with
            | Some sub => file_at sub (s' :: segs)
            | None => None
            end).
    change (removelast (s :: s' :: segs)) with (s :: removelast (s' :: segs)).
    change (List.last (s :: s' :: segs) "") with (List.last (s' :: segs) "").
    simpl traverse. destruct (dir_named T s) as [sub|]; [|done].
    apply IH.
Qed.

Lemma join_not_empty sep x segs : x <> "" -> join sep (x :: segs) <> "".
Proof. destruct x; [done|]. by destruct segs. Qed.

Lemma lookupPath_file T segs entry :
  Forall clean_segment segs ->
  trim (join "/" segs) = join "/" segs ->
  file_at T segs = Some entry ->
  lookupPath T (join "/" segs)
  = Some (FileLookupResult (cid entry)
            (or_else (mimeType entry) "application/octet-stream")).
Proof.
  intros Hclean Htrim Hfile. unfold lookupPath.
  rewrite (normalizePath_join_clean _ Hclean Htrim).
  destruct segs as [|x segs]; [done|].
  assert (Hx : x <> "").
  { inversion Hclean as [|? ? (Hk & _) _]; subst. by intros ->. }
  destruct (String.eqb_spec (join "/" (x :: segs)) "") as [He|_];
    [by apply join_not_empty in He|].
  rewrite (split_join "/")
    by (done || (eapply Forall_impl; [exact Hclean|]; by intros ? (_ & _ & ?))).
  destruct (file_at_traverse _ _ _ Hfile) as (d & -> & ->). done.
Qed.

Lemma lookupFile_file T segs entry :
  Forall clean_segment segs ->
  ServiceWorker.normalizePath (join "/" segs) = join "/" segs ->
  file_at T segs = Some entry ->
  lookupFile T (join "/" segs) = Some entry.
Proof.
  intros Hclean Hnorm Hfile. unfold lookupFile. rewrite Hnorm.
  destruct segs as [|x segs]; [done|].
  assert (Hx : x <> "").
  { inversion Hclean as [|? ? (Hk & _) _]; subst. by intros ->. }
  destruct (String.eqb_spec (join "/" (x :: segs)) "") as [He|_];
    [by apply join_not_empty in He|].
  unfold lookup_segments.
  rewrite (split_join "/")
    by (done || (eapply Forall_impl; [exact Hclean|]; by intros ? (_ & _ & ?))).
  by destruct (file_at_traverse _ _ _ Hfile) as (d & -> & ->).
Qed.

(** C1 (counterexample).  The site maps the file [C] at [a/b.html], and
    [lookupPath] finds it there; with a query string and a fragment
    appended [lookupPath] returns [null]. *)
Lemma lookupPath_keeps_query_and_fragment :
  file_at Examples.site ["a"; "b.html"] = Some Examples.page
  /\ lookupPath Examples.site "a/b.html"
     = Some (FileLookupResult "C" "application/octet-stream")
  /\ lookupPath Examples.site "a/b.html?x=1#y" = None.
Proof. by vm_compute. Qed.

(** C1, as amended.  Let the tree [T] map the file entry [entry] at the path
    [P = s1/.../sn], where no segment is empty, [.], [..] or contains a
    slash, [P] has no white space at either end and [P] has neither [?] nor
    [#] (the worker's [normalizePath] leaves it unchanged).  Then
    [lookupPath] returns the entry (its content identifier, and its MIME
    type or the default one) for [P], for [P] with a leading slash and for
    [P] with a trailing slash; and the service worker's [lookupFile]
    returns the entry for [P], for [P] with a leading slash, with a
    trailing slash, with a query string and with a fragment appended.
    Stripping the query string and the fragment is done by the worker's
    lookup only. *)
Theorem lookup_path_variants T segs P entry q :
  P = join "/" segs ->
  Forall clean_segment segs ->
  trim P = P ->
  ServiceWorker.normalizePath P = P ->
  file_at T segs = Some entry ->
  let found := Some (FileLookupResult (cid entry)
                       (or_else (mimeType entry) "application/octet-stream")) in
  (lookupPath T P = found
   /\ lookupPath T ("/" +:+ P) = found
   /\ lookupPath T (P +:+ "/") = found)
  /\ (lookupFile T P = Some entry
      /\ lookupFile T ("/" +:+ P) = Some entry
      /\ lookupFile T (P +:+ "/") = Some entry
      /\ lookupFile T (P +:+ "?" +:+ q) = Some entry
      /\ lookupFile T (P +:+ "#" +:+ q) = Some entry).
Proof.
  intros -> Hclean Htrim Hnorm Hfile found. subst found.
  pose proof (lookupPath_file _ _ _ Hclean Htrim Hfile) as HP.
  pose proof (lookupFile_file _ _ _ Hclean Hnorm Hfile) as HF.
  destruct (worker_normal_form _ Hnorm) as (Hlead & _ & _).
  split; [split; [exact HP|split]|split; [exact HF|repeat split]].
  - rewrite <- HP. apply lookupPath_by_normal_form.
    by apply normalizePath_leading_slash.
  - rewrite <- HP. apply lookupPath_by_normal_form.
    by apply normalizePath_trailing_slash.
  - rewrite <- HF. apply lookupFile_by_normal_form.
    by apply worker_normalizePath_leading_slash.
  - rewrite <- HF. apply lookupFile_by_normal_form.
    by apply worker_normalizePath_trailing_slash.
  - rewrite <- HF. apply lookupFile_by_normal_form.
    by apply worker_normalizePath_suffix.
  - rewrite <- HF. apply lookupFile_by_normal_form.
    by apply worker_normalizePath_suffix.
Qed.

Lemma lookup_path_variants_witness :
  let T := Examples.site in
  let P := "a/b.html" in
  let found := Some (FileLookupResult "C" "application/octet-stream") in
  (lookupPath T P = found
   /\ lookupPath T ("/" +:+ P) = found
   /\ lookupPath T (P +:+ "/") = found)
  /\ (lookupFile T P = Some Examples.page
      /\ lookupFile T ("/" +:+ P) = Some Examples.page
      /\ lookupFile T (P +:+ "/") = Some Examples.page
      /\ lookupFile T (P +:+ "?" +:+ "x=1") = Some Examples.page
      /\ lookupFile T (P +:+ "#" +:+ "x=1") = Some Examples.page).
Proof.
  apply (lookup_path_variants Examples.site ["a"; "b.html"] "a/b.html"
           Examples.page "x=1").
  - reflexivity.
  - repeat constructor.
  - reflexivity.
  - reflexivity.
  - reflexivity.
Defined.

(** C8 (counterexample).  [normalizePath("/ a")] is [" a"], which
    [normalizePath] trims to ["a"]. *)
Lemma normalizePath_not_idempotent :
  Lexicon.normalizePath "/ a" = " a"
  /\ Lexicon.normalizePath (Lexicon.normalizePath "/ a") = "a".
Proof. by vm_compute. Qed.

(** C8, as amended.  [normalizePath(normalizePath(p)) = normalizePath(p)]
    for every string [p] whose normal form has no white space at either
    end; and [normalizePath("/a/../b/")] is ["b"], [normalizePath("a/./b")]
    is ["a/b"]. *)
Theorem normalizePath_idempotent_trimmed p :
  trim (Lexicon.normalizePath p) = Lexicon.normalizePath p ->
  Lexicon.normalizePath (Lexicon.normalizePath p) = Lexicon.normalizePath p
  /\ Lexicon.normalizePath "/a/../b/" = "b"
  /\ Lexicon.normalizePath "a/./b" = "a/b".
Proof.
  intros H. split; [by apply normalizePath_idempotent_when_trimmed|].
  by vm_compute.
Qed.

Lemma normalizePath_idempotent_trimmed_witness :
  trim (Lexicon.normalizePath "/x/../a b/./c/") = Lexicon.normalizePath "/x/../a b/./c/"
  /\ Lexicon.normalizePath (Lexicon.normalizePath "/x/../a b/./c/")
     = Lexicon.normalizePath "/x/../a b/./c/".
Proof.
  split; [reflexivity|].
  apply (normalizePath_idempotent_trimmed "/x/../a b/./c/"). reflexivity.
Defined.

(** C10.  For every tree [T] and every path [p] that the worker's
    [normalizePath] maps to the empty path, the worker's [lookupFile(T, p)]
    is the entry [index.html] of the root files when there is one,
    otherwise the entry [index.htm] when there is one, otherwise [null]:
    a file entry or [null], never a listing.  The [lookupPath] of the
    lexicon returns the listing of the root for every path [p'] that its
    own [normalizePath] maps to the empty path. *)
Theorem worker_root_lookup_is_index T p p' :
  ServiceWorker.normalizePath p = "" ->
  Lexicon.normalizePath p' = "" ->
  lookupFile T p
  = match file_named T "index.html" with
    | Some entry => Some entry
    | None => file_named T "index.htm"
    end
  /\ lookupPath T p'
     = Some (DirectoryLookupResult (default ∅ (files T))
               (keys (default ∅ (dirs T)))).
Proof.
  intros Hp Hp'. split; [by apply lookupFile_root|by apply lookupPath_root].
Qed.

Lemma worker_root_lookup_is_index_witness :
  lookupFile Examples.home "/?page=2" = Some Examples.index_htm
  /\ lookupPath Examples.home " // "
     = Some (DirectoryLookupResult (default ∅ (files Examples.home))
               (keys (default ∅ (dirs Examples.home)))).
Proof.
  apply (worker_root_lookup_is_index Examples.home "/?page=2" " // ");
    reflexivity.
Defined.

End LookupClaims.


(* ===================================================================== *)
(** * The directory merge *)
(* ===================================================================== *)

Section MergeFacts.
Import JsString Lexicon.

Implicit Types (a b c d : WispDirectory) (m : gmap string WispDirectory).

Lemma merge_into_unfold result dirFiles dirDirs :
  merge_into result (mkDir dirFiles dirDirs)
  = mkDir
      (match dirFiles with
       | Some fs => Some (fs ∪ default ∅ (files result))
       | None => files result
       end)
      (match dirDirs with
       | Some ds =>
           Some (map_fold (merge_entry merge_into) (default ∅ (dirs result)) ds)
       | None => dirs result
       end).
Proof. reflexivity. Qed.

Lemma dir_size_unfold f ds :
  dir_size (mkDir f ds)
  = S (match ds with
       | Some m => map_fold (fun _ sub acc => (dir_size sub + acc)%nat) 0%nat m
       | None => 0%nat
       end).
Proof. reflexivity. Qed.

Lemma dir_size_child m k sub :
  m !! k = Some sub ->
  (dir_size sub <= map_fold (fun _ s acc => (dir_size s + acc)%nat) 0%nat m)%nat.
Proof.
  revert k sub.
  apply (map_fold_weak_ind
           (fun n m => forall k sub, m !! k = Some sub -> (dir_size sub <= n)%nat)).
  - intros k sub. by rewrite lookup_empty.
  - intros i x m' n Hi IH k sub. rewrite lookup_insert.
    case_decide as Hik.
    + intros [= ->]. lia.
    + intros H. specialize (IH _ _ H). lia.
Qed.

(** Induction on a tree, with the property assumed of the subdirectories. *)
Lemma WispDirectory_children_ind (P : WispDirectory -> Prop) :
  (forall f ds,
      (forall k sub, ds ≫= (.!! k) = Some sub -> P sub) -> P (mkDir f ds)) ->
  forall d, P d.
Proof.
  intros Hstep d.
  remember (dir_size d) as n eqn:Hn. revert d Hn.
  induction n as [n IH] using lt_wf_ind. intros [f ds] ->.
  apply Hstep. intros k sub Hsub. destruct ds as [m|]; [|done].
  simpl in Hsub. apply (IH (dir_size sub)); [|done].
  rewrite dir_size_unfold. pose proof (dir_size_child _ _ _ Hsub). lia.
Qed.

(** The entry named [k] after the inner loop of the merge. *)
Lemma lookup_merge_entries base m k :
  map_fold (merge_entry merge_into) base m !! k
  = match m !! k with
    | Some sub =>
        Some (match base !! k with
              | Some existing => merge_into existing sub
              | None => sub
              end)
    | None => base !! k
    end.
Proof.
  revert k.
  apply (map_fold_weak_ind
           (fun acc m => forall k,
                acc !! k = match m !! k with
                           | Some sub =>
                               Some (match base !! k with
                                     | Some existing => merge_into existing sub
                                     | None => sub
                                     end)
                           | None => base !! k
                           end)).
  - intros k. by rewrite lookup_empty.
  - intros i x m' acc Hi IH k. unfold merge_entry.
    pose proof (IH i) as Hacc. rewrite Hi in Hacc.
    rewrite (lookup_insert m'). case_decide as Hik.
    + subst k. rewrite Hacc. destruct (base !! i); by rewrite lookup_insert_eq.
    + rewrite <- IH. destruct (acc !! i); by rewrite lookup_insert_ne.
Qed.

Lemma merge_entries_empty m : map_fold (merge_entry merge_into) ∅ m = m.
Proof.
  apply map_eq. intros k. rewrite lookup_merge_entries, lookup_empty.
  by destruct (m !! k).
Qed.

Lemma merge_into_empty d : merge_into createEmptyDirectory d = d.
Proof.
  destruct d as [f ds]. rewrite merge_into_unfold. simpl. f_equal.
  - destruct f; [|done]. by rewrite (right_id_L ∅ (∪)).
  - destruct ds; [|done]. by rewrite merge_entries_empty.
Qed.

(** The recursive call of the source: [mergeDirectories(existing, subDir)]. *)
Lemma merge_into_eq_mergeDirectories existing subDir :
  mergeDirectories [Some existing; Some subDir] = merge_into existing subDir.
Proof. unfold mergeDirectories. simpl. by rewrite merge_into_empty. Qed.

Lemma mergeDirectories_single d : mergeDirectories [Some d] = d.
Proof. unfold mergeDirectories. simpl. apply merge_into_empty. Qed.

Lemma default_dirs_lookup d k : default ∅ (dirs d) !! k = dir_named d k.
Proof. unfold dir_named. destruct (dirs d); simpl; [done|apply lookup_empty]. Qed.

Lemma default_files_lookup d k : default ∅ (files d) !! k = file_named d k.
Proof. unfold file_named. destruct (files d); simpl; [done|apply lookup_empty]. Qed.

Lemma dir_named_merge_into a b k :
  dir_named (merge_into a b) k
  = match dir_named b k with
    | Some sub =>
        Some (match dir_named a k with
              | Some existing => merge_into existing sub
              | None => sub
              end)
    | None => dir_named a k
    end.
Proof.
  destruct b as [f [m|]]; rewrite merge_into_unfold; unfold dir_named at 1 2; simpl.
  - by rewrite lookup_merge_entries, default_dirs_lookup.
  - done.
Qed.

Lemma file_named_merge_into a b k :
  file_named (merge_into a b) k
  = match file_named b k with
    | Some entry => Some entry
    | None => file_named a k
    end.
Proof.
  destruct b as [[fs|] ds]; rewrite merge_into_unfold; unfold file_named at 1 2; simpl.
  - rewrite lookup_union, default_files_lookup.
    destruct (fs !! k), (file_named a k); done.
  - done.
Qed.

(** The accumulated subdirectories after merging [b] into [a]. *)
Lemma default_dirs_merge_into a b :
  default ∅ (dirs (merge_into a b))
  = map_fold (merge_entry merge_into) (default ∅ (dirs a)) (default ∅ (dirs b)).
Proof.
  destruct b as [f [m|]]; rewrite merge_into_unfold; simpl; [done|].
  by rewrite map_fold_empty.
Qed.

Lemma default_files_merge_into a b :
  default ∅ (files (merge_into a b)) = default ∅ (files b) ∪ default ∅ (files a).
Proof.
  destruct b as [[fs|] ds]; rewrite merge_into_unfold; simpl; [done|].
  by rewrite (left_id_L ∅ (∪)).
Qed.

Lemma merge_into_assoc c : forall a b,
  merge_into (merge_into a b) c = merge_into a (merge_into b c).
Proof.
  induction c as [fc dc IH] using WispDirectory_children_ind. intros a b.
  rewrite (merge_into_unfold (merge_into a b)).
  destruct (merge_into b (mkDir fc dc)) as [fbc dbc] eqn:Hbc.
  rewrite merge_into_unfold.
  assert (Hf : fbc = match fc with
                     | Some fs => Some (fs ∪ default ∅ (files b))
                     | None => files b
                     end) by (rewrite merge_into_unfold in Hbc; congruence).
  assert (Hd : dbc = match dc with
                     | Some ds => Some (map_fold (merge_entry merge_into)
                                          (default ∅ (dirs b)) ds)
                     | None => dirs b
                     end) by (rewrite merge_into_unfold in Hbc; congruence).
  clear Hbc. subst fbc dbc. f_equal.
  - rewrite default_files_merge_into.
    destruct fc as [fs|].
    + by rewrite (assoc_L (∪)).
    + destruct b as [[fb|] db]; by rewrite merge_into_unfold.
  - rewrite default_dirs_merge_into.
    destruct dc as [mc|].
    + f_equal. apply map_eq. intros k.
      rewrite !lookup_merge_entries.
      destruct (mc !! k) as [sc|] eqn:Hc;
        destruct (default ∅ (dirs b) !! k) as [sb|] eqn:Hb;
        destruct (default ∅ (dirs a) !! k) as [sa|] eqn:Ha; try done.
      f_equal. apply IH with k. simpl. done.
    + destruct b as [fb [mb|]]; by rewrite merge_into_unfold.
Qed.



Lemma file_at_cons d k p :
  p <> [] ->
  file_at d (k :: p)
  = match dir_named d k with
    | Some sub => file_at sub p
    | None => None
    end.
Proof. by destruct p. Qed.

Lemma merge_into_comm a : forall b,
  (forall p, file_at a p = None \/ file_at b p = None) ->
  merge_into a b = merge_into b a.
Proof.
  induction a as [fa da IH] using WispDirectory_children_ind.
  intros [fb db] Hdisj. rewrite !merge_into_unfold. simpl. f_equal.
  - destruct fa as [ma|], fb as [mb|]; simpl; rewrite ?(right_id_L ∅ (∪));
      try done.
    f_equal. apply map_union_comm, map_disjoint_spec. intros i x y Hx Hy.
    destruct (Hdisj [i]) as [H|H]; cbn in H; congruence.
  - destruct da as [ma|], db as [mb|]; simpl; rewrite ?merge_entries_empty;
      try done.
    f_equal. apply map_eq. intros k. rewrite !lookup_merge_entries.
    destruct (ma !! k) as [sa|] eqn:Ha, (mb !! k) as [sb|] eqn:Hb; try done.
    f_equal. apply (IH k sa Ha). intros p.
    destruct p as [|s p]; [by left|].
    specialize (Hdisj (k :: s :: p)).
    rewrite !file_at_cons in Hdisj by done.
    unfold dir_named in Hdisj. simpl in Hdisj. by rewrite Ha, Hb in Hdisj.
Qed.

(** ** The merge of a list, entry by entry *)

Lemma fold_merge_next_Some ds d :
  fold_left merge_next (Some <$> ds) d = fold_left merge_into ds d.
Proof. revert d. induction ds as [|x ds IH]; intros d; simpl; [done|apply IH]. Qed.

Lemma mergeDirectories_cons d ds :
  mergeDirectories (Some d :: ds) = fold_left merge_next ds d.
Proof. unfold mergeDirectories. simpl. by rewrite merge_into_empty. Qed.

Lemma fold_merge_sub_Some subs d :
  fold_left merge_sub subs (Some d) = Some (fold_left merge_into subs d).
Proof. revert d. induction subs as [|x subs IH]; intros d; simpl; [done|apply IH]. Qed.

Lemma dir_named_fold_merge ds : forall acc name,
  dir_named (fold_left merge_next ds acc) name
  = fold_left merge_sub (subtrees name ds) (dir_named acc name).
Proof.
  induction ds as [|od ds IH]; intros acc name; [done|].
  simpl fold_left at 1. rewrite IH. unfold subtrees.
  destruct od as [d|]; simpl; [|done].
  rewrite dir_named_merge_into. by destruct (dir_named d name).
Qed.

Lemma dir_named_mergeDirectories ds name :
  dir_named (mergeDirectories ds) name
  = match subtrees name ds with
    | [] => None
    | sub :: subs => Some (mergeDirectories (Some <$> (sub :: subs)))
    end.
Proof.
  unfold mergeDirectories at 1. rewrite dir_named_fold_merge.
  change (dir_named createEmptyDirectory name) with (@None WispDirectory).
  destruct (subtrees name ds) as [|sub subs]; [done|].
  simpl fold_left. unfold merge_sub at 2. rewrite fold_merge_sub_Some.
  by rewrite fmap_cons, mergeDirectories_cons, fold_merge_next_Some.
Qed.

Lemma file_named_fold_merge ds : forall acc name,
  file_named (fold_left merge_next ds acc) name
  = fold_left later (List.map (fun od => od ≫= fun d => file_named d name) ds)
      (file_named acc name).
Proof.
  induction ds as [|od ds IH]; intros acc name; [done|].
  simpl. rewrite IH. f_equal. destruct od as [d|]; simpl; [|done].
  apply file_named_merge_into.
Qed.



Lemma fold_later_subtrees name rest ds :
  rest <> [] ->
  forall acc,
    fold_left later
      (List.map (fun od => od ≫= fun d => file_at d (name :: rest)) ds) acc
    = fold_left later
        (List.map (fun d => file_at d rest) (subtrees name ds)) acc.
Proof.
  intros Hrest. unfold subtrees.
  induction ds as [|od ds IH]; intros acc; [done|].
  destruct od as [d|]; cbn -[file_at]; [|apply IH].
  rewrite (file_at_cons _ _ _ Hrest).
  destruct (dir_named d name) as [sub|]; cbn -[file_at]; apply IH.
Qed.

Lemma fold_later_no_file ds :
  fold_left later (List.map (fun od => od ≫= fun d => file_at d []) ds) None
  = @None WispFile.
Proof. induction ds as [|[d|] ds IH]; simpl; done. Qed.

Lemma file_at_mergeDirectories p : forall ds,
  file_at (mergeDirectories ds) p
  = last_defined (List.map (fun od => od ≫= fun d => file_at d p) ds).
Proof.
  unfold last_defined.
  induction p as [|name rest IH]; intros ds.
  - by rewrite fold_later_no_file.
  - destruct rest as [|r rest].
    + unfold mergeDirectories. apply (file_named_fold_merge ds createEmptyDirectory).
    + rewrite file_at_cons, dir_named_mergeDirectories by done.
      rewrite fold_later_subtrees by done.
      destruct (subtrees name ds) as [|sub subs]; [done|].
      rewrite IH. by rewrite <- list_fmap_compose.
Qed.

(** C2.  For every sequence of trees, some of them possibly [null]: at
    every path, the file entry of [mergeDirectories(D1, ..., Dn)] is the
    entry of the last tree of the sequence that has a file entry at that
    path, and there is none when no tree has one; and a name is a
    subdirectory of the result exactly when it is one of some input, and
    then it holds the merge of the subtrees of that name of all the inputs
    that have one, in input order. *)
Theorem mergeDirectories_last_file_wins_and_subtrees_merge
  (directories : list (option WispDirectory)) :
  (forall p,
      file_at (mergeDirectories directories) p
      = last_defined
          (List.map (fun od => od ≫= fun d => file_at d p) directories))
  /\ (forall name,
         dir_named (mergeDirectories directories) name
         = match subtrees name directories with
           | [] => None
           | sub :: subs => Some (mergeDirectories (Some <$> (sub :: subs)))
           end).
Proof.
  split.
  - intros p. apply file_at_mergeDirectories.
  - intros name. apply dir_named_mergeDirectories.
Qed.

Lemma disjoint_file_paths_weaken a b :
  disjoint_file_paths a b ->
  forall p, file_at a p = None \/ file_at b p = None.
Proof.
  intros H p. destruct (file_at a p) as [x|] eqn:Ha; [|by left].
  right. destruct (H p) as [H1 _]. rewrite Ha in H1. by apply H1.
Qed.

Lemma mergeDirectories_triple a b c :
  mergeDirectories [Some a; Some b; Some c] = merge_into (merge_into a b) c.
Proof. unfold mergeDirectories. simpl. by rewrite merge_into_empty. Qed.

(** C3.  For all trees [A], [B] and [C], [mergeDirectories(A, B, C)] is
    [mergeDirectories(mergeDirectories(A, B), C)] and is
    [mergeDirectories(A, mergeDirectories(B, C))]; and when no path is a
    file in one of [A] and [B] and a file or a directory in the other,
    [mergeDirectories(A, B)] is [mergeDirectories(B, A)]. *)
Theorem mergeDirectories_grouping_and_disjoint_commutativity A B C :
  mergeDirectories [Some A; Some B; Some C]
  = mergeDirectories [Some (mergeDirectories [Some A; Some B]); Some C]
  /\ mergeDirectories [Some A; Some B; Some C]
     = mergeDirectories [Some A; Some (mergeDirectories [Some B; Some C])]
  /\ (disjoint_file_paths A B ->
      mergeDirectories [Some A; Some B] = mergeDirectories [Some B; Some A]).
Proof.
  rewrite mergeDirectories_triple, !merge_into_eq_mergeDirectories.
  split; [done|split].
  - apply merge_into_assoc.
  - intros H. by apply merge_into_comm, disjoint_file_paths_weaken.
Qed.

Lemma examples_disjoint :
  disjoint_file_paths Examples.left_tree Examples.right_tree.
Proof.
  intros p. unfold Examples.left_tree, Examples.right_tree.
  destruct p as [|s1 [|s2 [|s3 p]]].
  - split; intros [x Hx]; done.
  - split; intros [x Hx]; cbn in Hx; [|done].
    apply lookup_singleton_Some in Hx as [<- _]. done.
  - split; intros [x Hx]; cbn in Hx.
    + destruct (decide (s1 = "a")) as [->|Hne].
      * rewrite lookup_singleton_eq in Hx. cbn in Hx.
        apply lookup_singleton_Some in Hx as [<- _]. done.
      * by rewrite lookup_singleton_ne in Hx.
    + destruct (decide (s1 = "a")) as [->|Hne].
      * rewrite lookup_singleton_eq in Hx. cbn in Hx.
        apply lookup_singleton_Some in Hx as [<- _]. done.
      * by rewrite lookup_singleton_ne in Hx.
  - split; intros [x Hx]; cbn in Hx.
    + destruct (decide (s1 = "a")) as [->|Hne].
      * by rewrite lookup_singleton_eq in Hx.
      * by rewrite lookup_singleton_ne in Hx.
    + destruct (decide (s1 = "a")) as [->|Hne].
      * by rewrite lookup_singleton_eq in Hx.
      * by rewrite lookup_singleton_ne in Hx.
Qed.

Lemma mergeDirectories_grouping_and_disjoint_commutativity_witness :
  mergeDirectories [Some Examples.left_tree; Some Examples.right_tree]
  = mergeDirectories [Some Examples.right_tree; Some Examples.left_tree].
Proof.
  apply (mergeDirectories_grouping_and_disjoint_commutativity
           Examples.left_tree Examples.right_tree Examples.site).
  exact examples_disjoint.
Defined.

End MergeFacts.


(* ===================================================================== *)
(** * The retry policy *)
(* ===================================================================== *)

Section RetryFacts.
Import Retry.

Lemma defaultShouldRetry_retryable e :
  well_formed e -> (defaultShouldRetry e = true <-> retryable e).
Proof.
  destruct e as [m|n m [s|]|d|]; simpl; try (intros _; split; done).
  unfold http_status. intros Hs.
  rewrite orb_true_iff, Z.leb_le, Z.eqb_eq. split; [|tauto].
  intros [H|H]; [left; lia|by right].
Qed.

(** C7.  Under the default options, for every operation whose errors, when
    they carry a status, carry an HTTP status: [withRetry] invokes the
    operation at most 3 times; after a failed invocation number [i]
    (counted from 0) there is a further invocation if and only if [i] is
    not the last attempt, 2, and the error is a network-level failure (a
    [TypeError]) or carries a status 5xx or 429; the completion of
    [withRetry] is the outcome of the last invocation, so an error that is
    not retried is the error thrown; and the delay slept before retry [k]
    is [min(1000 * 2^k, 10000)] milliseconds. *)
Theorem withRetry_default_policy {World T : Type}
  (fn : World -> (T + JsError) * World) (w : World) :
  (forall w0 e w1, fn w0 = (inr e, w1) -> well_formed e) ->
  (List.length (attempts (withRetry fn defaultRetryOptions w)) <= 3)%nat
  /\ (forall i e,
         attempts (withRetry fn defaultRetryOptions w) !! i = Some (inr e) ->
         (is_Some (attempts (withRetry fn defaultRetryOptions w) !! S i)
          <-> i <> 2%nat /\ retryable e))
  /\ List.last (attempts (withRetry fn defaultRetryOptions w)) (inr Undefined)
     = completion (withRetry fn defaultRetryOptions w)
  /\ sleeps (withRetry fn defaultRetryOptions w)
     = List.map (fun k => Z.min (1000 * 2 ^ Z.of_nat k) 10000)
         (seq 0 (List.length (attempts (withRetry fn defaultRetryOptions w)) - 1)).
Proof.
  intros Hwf. unfold withRetry. simpl.
  destruct (fn w) as [[v0|e0] w1] eqn:H0; simpl.
  { (split; [|split; [|split]]); try done; try (simpl; lia). intros [|i] e; simpl; done. }
  pose proof (defaultShouldRetry_retryable e0 (Hwf _ _ _ H0)) as R0.
  destruct (defaultShouldRetry e0) eqn:S0; simpl.
  2:{ (split; [|split; [|split]]); try done; try (simpl; lia).
      - intros [|i] e; simpl; [|done]. intros [= <-]. split.
        + by intros [? ?].
        + intros [_ Hr]. apply R0 in Hr. done. }
  destruct (fn w1) as [[v1|e1] w2] eqn:H1; simpl.
  { (split; [|split; [|split]]); try done; try (simpl; lia).
    intros [|[|i]] e; simpl; try done.
    intros [= <-]. split; [intros _; split; [done|by apply R0]|by eexists]. }
  pose proof (defaultShouldRetry_retryable e1 (Hwf _ _ _ H1)) as R1.
  destruct (defaultShouldRetry e1) eqn:S1; simpl.
  2:{ (split; [|split; [|split]]); try done; try (simpl; lia).
      intros [|[|i]] e; simpl; try done; intros [= <-].
      - split; [intros _; split; [done|by apply R0]|by eexists].
      - split; [by intros [? ?]|]. intros [_ Hr]. apply R1 in Hr. done. }
  destruct (fn w2) as [[v2|e2] w3] eqn:H2; simpl.
  - (split; [|split; [|split]]); try done; try (simpl; lia).
    intros [|[|[|i]]] e; simpl; try done; intros [= <-].
    + split; [intros _; split; [done|by apply R0]|by eexists].
    + split; [intros _; split; [done|by apply R1]|by eexists].
  - (split; [|split; [|split]]); try done; try (simpl; lia).
    intros [|[|[|i]]] e; simpl; try done; intros [= <-].
    + split; [intros _; split; [done|by apply R0]|by eexists].
    + split; [intros _; split; [done|by apply R1]|by eexists].
    + split; [by intros [? ?]|]. by intros [? _].
Qed.

Lemma withRetry_default_policy_witness :
  (List.length (attempts (withRetry Examples.flaky defaultRetryOptions 0%nat)) <= 3)%nat
  /\ (forall i e,
         attempts (withRetry Examples.flaky defaultRetryOptions 0%nat) !! i
         = Some (inr e) ->
         (is_Some (attempts (withRetry Examples.flaky defaultRetryOptions 0%nat) !! S i)
          <-> i <> 2%nat /\ retryable e))
  /\ List.last (attempts (withRetry Examples.flaky defaultRetryOptions 0%nat))
       (inr Undefined)
     = completion (withRetry Examples.flaky defaultRetryOptions 0%nat)
  /\ sleeps (withRetry Examples.flaky defaultRetryOptions 0%nat)
     = List.map (fun k => Z.min (1000 * 2 ^ Z.of_nat k) 10000)
         (seq 0 (List.length
                   (attempts (withRetry Examples.flaky defaultRetryOptions 0%nat)) - 1)).
Proof.
  apply (withRetry_default_policy Examples.flaky 0%nat).
  intros w0 e w1. unfold Examples.flaky.
  destruct (w0 <? 2)%nat; intros [= <- _]; simpl; unfold http_status; lia.
Defined.

End RetryFacts.


(* ===================================================================== *)
(** * The blob cache of the service worker *)
(* ===================================================================== *)

Section BlobCacheFacts.
Import JsString Lexicon ServiceWorker.

Variable platform : Platform.

Lemma ensure_db_frame st :
  blobs (ensure_db st) = blobs st /\ fetched (ensure_db st) = fetched st
  /\ pdsUrl (ensure_db st) = pdsUrl st /\ did (ensure_db st) = did st.
Proof. unfold ensure_db. by destruct (db st). Qed.

Lemma blob_url_ensure_db st cid : blob_url (ensure_db st) cid = blob_url st cid.
Proof. unfold ensure_db. by destruct (db st). Qed.

(** A hit: the cached bytes, the marker [HIT], and no request. *)
Lemma fetchBlob_hit cid mimeType st blob :
  truthy (pdsUrl st) = true -> truthy (did st) = true ->
  blobs st !! cid = Some blob ->
  fetchBlobFromPDS platform cid mimeType st
  = (Return (mkResponse (blob_bytes blob) (content_type mimeType cid)
               "public, max-age=3600" HIT), ensure_db st).
Proof.
  intros Hp Hd Hc. unfold fetchBlobFromPDS, getBlob. rewrite Hp, Hd. simpl.
  destruct (ensure_db_frame st) as (-> & _). by rewrite Hc.
Qed.

(** A response with the marker [HIT] comes from the cache. *)
Lemma fetchBlob_HIT_cached cid mimeType st response st' :
  fetchBlobFromPDS platform cid mimeType st = (Return response, st') ->
  wispCache response = HIT -> is_Some (blobs st !! cid).
Proof.
  unfold fetchBlobFromPDS, getBlob.
  destruct (negb (truthy (pdsUrl st)) || negb (truthy (did st))); [done|].
  destruct (ensure_db_frame st) as (-> & _).
  destruct (blobs st !! cid) as [blob|]; [by eexists|].
  destruct (network _ _ _) as [|status statusText raw]; [done|].
  destruct (negb (response_ok status)); [done|].
  destruct (decode_blob platform cid raw) as [data|]; [|done].
  by intros [= <- _].
Qed.

(** Fetching never removes or replaces a cached blob. *)
Lemma fetchBlob_keeps_cached cid mimeType st cid' blob :
  blobs st !! cid' = Some blob ->
  blobs (fetchBlobFromPDS platform cid mimeType st).2 !! cid' = Some blob.
Proof.
  intros Hc. unfold fetchBlobFromPDS, getBlob.
  destruct (negb (truthy (pdsUrl st)) || negb (truthy (did st))); [done|].
  destruct (ensure_db_frame st) as (Hb & _).
  destruct (blobs (ensure_db st) !! cid) as [cached|] eqn:Hcid; simpl;
    [by rewrite Hb|].
  destruct (network _ _ _) as [|status statusText raw]; simpl; [by rewrite Hb|].
  destruct (negb (response_ok status)); simpl; [by rewrite Hb|].
  destruct (decode_blob platform cid raw) as [data|]; simpl; [|by rewrite Hb].
  destruct (blob_size _ <=? five_megabytes); simpl; [|by rewrite Hb].
  unfold storeBlob. simpl. destruct (ensure_db_frame (log_fetch (ensure_db st)
    (blob_url (ensure_db st) cid))) as (-> & _). simpl. rewrite Hb.
  rewrite lookup_insert_ne; [done|]. intros ->. rewrite Hb in Hcid. congruence.
Qed.

Lemma handleMessage_keeps_cached data st cid blob :
  data <> CLEAR_CACHE ->
  blobs st !! cid = Some blob ->
  blobs (handleMessage data st).1 !! cid = Some blob.
Proof.
  intros Hne Hc. destruct data; simpl; try done.
  - unfold storeSiteInfo, storeManifest. simpl.
    repeat (match goal with |- context [ensure_db ?s] =>
              destruct (ensure_db_frame s) as (-> & _) end; simpl). done.
  - by destruct (db st).
Qed.

Lemma run_session_keeps_cached session : forall st cid blob,
  Forall (fun e => e <> Control CLEAR_CACHE) session ->
  blobs st !! cid = Some blob ->
  blobs (run_session platform session st) !! cid = Some blob.
Proof.
  induction session as [|e session IH]; intros st cid blob Hall Hc; [done|].
  inversion Hall as [|? ? He Hrest]; subst. simpl. apply IH; [done|].
  destruct e as [c m|data]; simpl.
  - by apply fetchBlob_keeps_cached.
  - apply handleMessage_keeps_cached; [congruence|done].
Qed.

(** C5.  Let the worker be configured, let [cid] miss the blob cache, let
    the network answer the request for [cid] with a successful response, and
    let [data] be its content after decoding.  Then [fetchBlobFromPDS]
    returns [data] with the marker [MISS]; afterwards the cache holds an
    entry for [cid] if and only if the size of [data] is at most
    [5 * 1024 * 1024] bytes, and then the entry is [data]; and when [data]
    is larger the blob store is left as it was, so that no fetch of [cid]
    made immediately afterwards returns a response with the marker
    [HIT]. *)
Theorem blob_cache_admission_gate cid mimeType st status statusText raw data :
  truthy (pdsUrl st) = true -> truthy (did st) = true ->
  blobs st !! cid = None ->
  network platform (fetched st) (blob_url st cid) = HttpResponse status statusText raw ->
  response_ok status = true ->
  decode_blob platform cid raw = Return data ->
  exists st',
    fetchBlobFromPDS platform cid mimeType st
    = (Return (mkResponse data (content_type mimeType cid)
                 "public, max-age=3600" MISS), st')
    /\ (is_Some (blobs st' !! cid)
        <-> Z.of_nat (List.length data) <= 5 * 1024 * 1024)
    /\ (Z.of_nat (List.length data) <= 5 * 1024 * 1024 ->
        blobs st' = <[cid := mkBlob data (content_type mimeType cid)]> (blobs st))
    /\ (5 * 1024 * 1024 < Z.of_nat (List.length data) ->
        blobs st' = blobs st
        /\ forall mimeType' response st'',
            fetchBlobFromPDS platform cid mimeType' st' = (Return response, st'') ->
            wispCache response = MISS).
Proof.
  intros Hp Hd Hmiss Hnet Hok Hdec.
  unfold fetchBlobFromPDS at 1, getBlob. rewrite Hp, Hd. simpl.
  destruct (ensure_db_frame st) as (Hb & Hf & _).
  rewrite Hb, Hmiss, Hf, blob_url_ensure_db, Hnet, Hok, Hdec. simpl.
  unfold blob_size, five_megabytes. simpl blob_bytes.
  destruct (Z.leb_spec (Z.of_nat (List.length data)) (5 * 1024 * 1024)) as [Hle|Hgt].
  - eexists. split; [reflexivity|].
    assert (Hst : blobs (storeBlob cid (mkBlob data (content_type mimeType cid))
                           (log_fetch (ensure_db st) (blob_url st cid)))
                  = <[cid := mkBlob data (content_type mimeType cid)]> (blobs st)).
    { unfold storeBlob. simpl.
      destruct (ensure_db_frame (log_fetch (ensure_db st) (blob_url st cid)))
        as (-> & _). simpl. by rewrite Hb. }
    rewrite Hst. split; [|split]; [|done|lia].
    rewrite lookup_insert_eq. split; [done|by eexists].
  - eexists. split; [reflexivity|]. simpl. rewrite Hb, Hmiss.
    split; [|split]; [|lia|].
    + split; [by intros [? ?]|lia].
    + intros _. split; [done|]. intros mimeType' response st'' Hagain.
      destruct (wispCache response) eqn:Hmark; [|done].
      destruct (fetchBlob_HIT_cached _ _ _ _ _ Hagain Hmark) as [b Hcached].
      simpl in Hcached. rewrite Hb, Hmiss in Hcached. done.
Qed.

(** C6, as amended.  Let the blob cache hold [blob] for [cid].  After every
    session of fetches and control messages in which the cache is not
    cleared by [CLEAR_CACHE], and whenever the worker is configured then,
    [fetchBlobFromPDS] for [cid] returns the bytes of [blob] with the
    marker [HIT] and sends no request to the network. *)
Theorem cached_blob_is_served_without_network cid mimeType st blob session :
  blobs st !! cid = Some blob ->
  Forall (fun e => e <> Control CLEAR_CACHE) session ->
  truthy (pdsUrl (run_session platform session st)) = true ->
  truthy (did (run_session platform session st)) = true ->
  exists st',
    fetchBlobFromPDS platform cid mimeType (run_session platform session st)
    = (Return (mkResponse (blob_bytes blob) (content_type mimeType cid)
                 "public, max-age=3600" HIT), st')
    /\ fetched st' = fetched (run_session platform session st).
Proof.
  intros Hc Hall Hp Hd.
  pose proof (run_session_keeps_cached _ _ _ _ Hall Hc) as Hc'.
  rewrite (fetchBlob_hit _ _ _ _ Hp Hd Hc'). eexists. split; [done|].
  by destruct (ensure_db_frame (run_session platform session st)) as (_ & -> & _).
Qed.

End BlobCacheFacts.

Section WorkerExamples.
Import JsString Lexicon ServiceWorker.

Lemma blob_cache_admission_gate_witness :
  exists st',
    fetchBlobFromPDS Examples.steady_platform "C" None Examples.configured
    = (Return (mkResponse Examples.payload (content_type None "C")
                 "public, max-age=3600" MISS), st')
    /\ (is_Some (blobs st' !! "C")
        <-> Z.of_nat (List.length Examples.payload) <= 5 * 1024 * 1024)
    /\ (Z.of_nat (List.length Examples.payload) <= 5 * 1024 * 1024 ->
        blobs st'
        = <["C" := mkBlob Examples.payload (content_type None "C")]>
            (blobs Examples.configured))
    /\ (5 * 1024 * 1024 < Z.of_nat (List.length Examples.payload) ->
        blobs st' = blobs Examples.configured
        /\ forall mimeType' response st'',
            fetchBlobFromPDS Examples.steady_platform "C" mimeType' st'
            = (Return response, st'') ->
            wispCache response = MISS).
Proof.
  apply (blob_cache_admission_gate Examples.steady_platform "C" None
           Examples.configured 200 "OK" Examples.payload Examples.payload);
    reflexivity.
Defined.

(** C6 (counterexample).  A fetch admits [C] to the cache; the cache is
    cleared by [CLEAR_CACHE]; the next fetch of [C] in the same session
    is a miss, with a second request to the network. *)
Lemma cached_blob_is_fetched_again_after_clear :
  blobs (run_session Examples.steady_platform [Fetch "C" None]
           Examples.configured) !! "C"
  = Some (mkBlob Examples.payload "application/octet-stream")
  /\ (fetchBlobFromPDS Examples.steady_platform "C" None
        (run_session Examples.steady_platform
           [Fetch "C" None; Control CLEAR_CACHE] Examples.configured)).1
     = Return (mkResponse Examples.payload "application/octet-stream"
                 "public, max-age=3600" MISS)
  /\ fetched (fetchBlobFromPDS Examples.steady_platform "C" None
                (run_session Examples.steady_platform
                   [Fetch "C" None; Control CLEAR_CACHE] Examples.configured)).2
     = [ "https://pds.example/xrpc/com.atproto.sync.getBlob?did=did:plc:xyz&cid=C";
         "https://pds.example/xrpc/com.atproto.sync.getBlob?did=did:plc:xyz&cid=C" ].
Proof. by vm_compute. Qed.

Lemma cached_blob_is_served_without_network_witness :
  exists st',
    fetchBlobFromPDS Examples.steady_platform "C" (Some "text/html")
      (run_session Examples.steady_platform
         [Fetch "D" None; Control GET_STATUS] Examples.restocked)
    = (Return (mkResponse Examples.payload (content_type (Some "text/html") "C")
                 "public, max-age=3600" HIT), st')
    /\ fetched st'
       = fetched (run_session Examples.steady_platform
                    [Fetch "D" None; Control GET_STATUS] Examples.restocked).
Proof.
  apply (cached_blob_is_served_without_network Examples.steady_platform
           "C" (Some "text/html") Examples.restocked
           (mkBlob Examples.payload "text/html")
           [Fetch "D" None; Control GET_STATUS]).
  - reflexivity.
  - repeat constructor; discriminate.
  - reflexivity.
  - reflexivity.
Defined.

(** What [CLEAR_CACHE] does in every state: it replies success, empties the
    blob store when the worker holds a database connection and leaves it
    as it is otherwise, and changes nothing else. *)
Lemma handleMessage_CLEAR_CACHE st :
  handleMessage CLEAR_CACHE st
  = (set_blobs st (if db st then ∅ else blobs st), [CACHE_CLEARED true]).
Proof. simpl. destruct st as [? ? ? ? ? [|] ? ? ?]; reflexivity. Qed.

Lemma handleMessage_CLEAR_CACHE_frame st :
  let st' := (handleMessage CLEAR_CACHE st).1 in
  currentManifest st' = currentManifest st /\ pdsUrl st' = pdsUrl st
  /\ did st' = did st /\ currentHandle st' = currentHandle st
  /\ currentSiteName st' = currentSiteName st /\ db st' = db st
  /\ manifests st' = manifests st /\ fetched st' = fetched st.
Proof. rewrite handleMessage_CLEAR_CACHE. simpl. repeat split. Qed.

(** C9 (the code at the failing input).  A worker that has just started
    holds no database connection; on [CLEAR_CACHE] it replies success and
    leaves the blob store, with the entry cached earlier, as it was. *)
Theorem clear_cache_without_connection_keeps_blobs :
  handleMessage CLEAR_CACHE Examples.restarted
  = (Examples.restarted, [CACHE_CLEARED true])
  /\ blobs Examples.restarted !! "C"
     = Some (mkBlob Examples.payload "text/html").
Proof. by vm_compute. Qed.

(** A document with two base tags of its own: the output holds the
    injected one only. *)
Example injectOverlayScript_replaces_base_tags :
  count_base_tags
    (injectOverlayScript Examples.configured
       "<html><head><base href=/x/><BASE target=_blank></head><body></body></html>")
  = 1%nat.
Proof. by vm_compute. Qed.

(** C4 (the code at the failing input).  In the document
    [<ba<base x>se href=/evil/>] the removal of base tags takes out
    [<base x>] and leaves [<base href=/evil/>]; the output of
    [injectOverlayScript] holds this base tag and the injected one. *)
Theorem injectOverlayScript_keeps_a_nested_base_tag :
  count_base_tags Examples.nested_base = 1%nat
  /\ count_base_tags
       (injectOverlayScript Examples.configured Examples.nested_base)
     = 2%nat
  /\ JsRegExp.take 101
       (injectOverlayScript Examples.configured Examples.nested_base)
     = "<!DOCTYPE html><html><head>" +:+ nl +:+ "  <base href=" +:+ dq
       +:+ "/wisp/did:plc:xyz/mysite/" +:+ dq +:+ ">" +:+ nl
       +:+ "</head><body><base href=/evil/>".
Proof. by vm_compute. Qed.

End WorkerExamples.


(* ===================================================================== *)
(** * The retry loop under any options *)
(* ===================================================================== *)

Section RetryLoopFacts.
Import Retry.
Context {World T : Type}.
Variable fn : World -> (T + JsError) * World.

Lemma iter_shift {A} (f : A -> A) n x :
  Nat.iter (S n) f x = Nat.iter n f (f x).
Proof. induction n as [|n IH]; [done|]. simpl in *. by rewrite IH. Qed.

Lemma last_default {A} (l : list A) d d' :
  l <> [] -> List.last l d = List.last l d'.
Proof.
  induction l as [|x l IH]; [done|]. intros _.
  destruct l as [|y l]; [done|]. by apply IH.
Qed.

Lemma calculateDelay_capped attempt opts :
  calculateDelay attempt opts <= maxDelay opts.
Proof. unfold calculateDelay. lia. Qed.

(** What the loop does from attempt number [attempt] on: the invocations it
    adds are the outcomes of [fn] in the successive worlds, each but the
    last one an error that [shouldRetry] accepts, and one delay is slept
    between two invocations. *)
Lemma retry_loop_trace opts remaining : forall attempt lastError done slept w,
  (attempt + remaining)%nat = maxAttempts opts ->
  exists outcomes,
    attempts (retry_loop fn opts remaining attempt lastError done slept w)
    = done ++ outcomes
    /\ (List.length outcomes <= remaining)%nat
    /\ ((0 < remaining)%nat -> outcomes <> [])
    /\ sleeps (retry_loop fn opts remaining attempt lastError done slept w)
       = slept ++ List.map (fun k => calculateDelay k opts)
                    (seq attempt (List.length outcomes - 1))
    /\ world (retry_loop fn opts remaining attempt lastError done slept w)
       = Nat.iter (List.length outcomes) (fun w => (fn w).2) w
    /\ (forall i, (i < List.length outcomes)%nat ->
          outcomes !! i = Some (fn (Nat.iter i (fun w => (fn w).2) w)).1)
    /\ (forall i e, outcomes !! i = Some (inr e) ->
          (S i < List.length outcomes)%nat -> shouldRetry opts e = true)
    /\ (forall i v, outcomes !! i = Some (inl v) ->
          S i = List.length outcomes)
    /\ List.last outcomes (inr lastError)
       = completion (retry_loop fn opts remaining attempt lastError done slept w).
Proof.
  induction remaining as [|remaining IH];
    intros attempt lastError done slept w Hinv.
  - exists []. simpl. rewrite !app_nil_r. repeat split; try done.
    + lia.
    + intros i Hi. lia.
  - simpl. destruct (fn w) as [[value|error] w'] eqn:Hfn.
    + exists [inl value]. simpl. rewrite app_nil_r, Hfn.
      repeat split; try done.
      * lia.
      * intros [|i] Hi; simpl; [by rewrite Hfn|lia].
      * intros [|i] e; simpl; [done|done].
      * intros [|i] v; simpl; [done|done].
    + destruct (negb (negb (attempt =? maxAttempts opts - 1)%nat
                      && shouldRetry opts error)) eqn:Hstop.
      * exists [inr error]. simpl. rewrite app_nil_r, Hfn.
        repeat split; try done.
        -- lia.
        -- intros [|i] Hi; simpl; [by rewrite Hfn|lia].
        -- intros [|i] e; simpl; intros; [lia|done].
        -- intros [|i] v; simpl; [done|done].
      * apply negb_false_iff, andb_true_iff in Hstop as [Hlast Hretry].
        apply negb_true_iff, Nat.eqb_neq in Hlast.
        destruct (IH (S attempt) error (done ++ [inr error])
                    (slept ++ [calculateDelay attempt opts]) w' ltac:(lia))
          as (outcomes & Ha & Hlen & Hne & Hs & Hw & Hi & Hr & Hv & Hcompl).
        assert (Hne' : outcomes <> []) by (apply Hne; lia).
        exists (inr error :: outcomes).
        rewrite Ha, Hs, <- !app_assoc.
        split; [done|]. split; [simpl; lia|]. split; [done|]. split.
        { destruct outcomes as [|o outcomes]; [done|]. simpl.
          by rewrite Nat.sub_0_r. }
        split.
        { rewrite Hw.
          change (List.length (inr error :: outcomes))
            with (S (List.length outcomes)).
          rewrite iter_shift. by rewrite Hfn. }
        split.
        { intros [|i] Hlt; [simpl; by rewrite Hfn|].
          rewrite iter_shift, Hfn. simpl. apply Hi. simpl in Hlt. lia. }
        split.
        { intros [|i] e; simpl.
          - intros Heq _. by simplify_eq.
          - intros Hl Hlt. apply (Hr i); [done|simpl in Hlt; lia]. }
        split.
        { intros [|i] v; simpl; [done|]. intros Hl. f_equal. by apply (Hv i v). }
        rewrite <- Hcompl. destruct outcomes as [|o outcomes]; [done|].
        change (List.last (inr error :: o :: outcomes) (inr lastError))
          with (List.last (o :: outcomes) (inr lastError)).
        by apply last_default.
Qed.

(** X1.  Under any options [withRetry] invokes the operation at most
    [maxAttempts] times, one after the other: the recorded outcome number
    [i] is the outcome of the operation in the world left by [i]
    invocations, and the final world is the one left by all of them.
    Between two invocations it sleeps once, [calculateDelay] of the number
    of the attempt that failed, and never more than [maxDelay]. *)
Theorem withRetry_invocations_and_delays opts w :
  (List.length (attempts (withRetry fn opts w)) <= maxAttempts opts)%nat
  /\ (forall i, (i < List.length (attempts (withRetry fn opts w)))%nat ->
        attempts (withRetry fn opts w) !! i
        = Some (fn (Nat.iter i (fun w => (fn w).2) w)).1)
  /\ world (withRetry fn opts w)
     = Nat.iter (List.length (attempts (withRetry fn opts w)))
         (fun w => (fn w).2) w
  /\ sleeps (withRetry fn opts w)
     = List.map (fun k => calculateDelay k opts)
         (seq 0 (List.length (attempts (withRetry fn opts w)) - 1))
  /\ Forall (fun delay => delay <= maxDelay opts) (sleeps (withRetry fn opts w)).
Proof.
  unfold withRetry.
  destruct (retry_loop_trace opts (maxAttempts opts) 0 Undefined [] [] w eq_refl)
    as (outcomes & Ha & Hlen & _ & Hs & Hw & Hi & _ & _ & _).
  rewrite Ha, Hs, Hw. simpl. repeat split; try done.
  apply List.Forall_map, List.Forall_forall. intros k _.
  apply calculateDelay_capped.
Qed.

(** X2.  When [maxAttempts] is at least 1, what [withRetry] returns or
    throws is the outcome of the last invocation; every earlier invocation
    failed with an error that [shouldRetry] accepts, and no invocation
    follows one that resolved. *)
Theorem withRetry_completes_with_last_outcome opts w :
  (0 < maxAttempts opts)%nat ->
  (exists earlier,
      attempts (withRetry fn opts w) = earlier ++ [completion (withRetry fn opts w)]
      /\ Forall (fun outcome =>
                   exists e, outcome = inr e /\ shouldRetry opts e = true)
           earlier).
Proof.
  intros Hpos. unfold withRetry.
  destruct (retry_loop_trace opts (maxAttempts opts) 0 Undefined [] [] w eq_refl)
    as (outcomes & Ha & _ & Hne & _ & _ & _ & Hr & Hv & Hcompl).
  rewrite Ha, <- Hcompl. simpl.
  specialize (Hne Hpos).
  exists (removelast outcomes). split.
  - by apply app_removelast_last.
  - apply List.Forall_forall. intros o Ho.
    apply list_elem_of_In in Ho. apply list_elem_of_lookup in Ho as [i Hi].
    assert (Hlt : (S i < List.length outcomes)%nat).
    { apply lookup_lt_Some in Hi.
      assert (Hl := f_equal (@List.length _) (app_removelast_last (inr Undefined) Hne)).
      rewrite length_app in Hl. simpl in Hl. lia. }
    assert (Hi' : outcomes !! i = Some o).
    { rewrite (app_removelast_last (inr Undefined) Hne).
      by apply lookup_app_l_Some. }
    destruct o as [v|e].
    + specialize (Hv _ _ Hi'). lia.
    + exists e. split; [done|]. by apply (Hr i).
Qed.

(** X3.  With [maxAttempts] 0 the loop body never runs: [withRetry] throws
    [undefined] without invoking the operation or sleeping. *)
Theorem withRetry_without_attempts opts w :
  maxAttempts opts = 0%nat ->
  withRetry fn opts w = mkRun (inr Undefined) [] [] w.
Proof. intros H. unfold withRetry. by rewrite H. Qed.

End RetryLoopFacts.

Section RetryLoopExamples.
Import Retry.

Lemma withRetry_completes_with_last_outcome_witness :
  exists earlier,
    attempts (withRetry Examples.flaky defaultRetryOptions 0%nat)
    = earlier ++ [completion (withRetry Examples.flaky defaultRetryOptions 0%nat)]
    /\ Forall (fun outcome =>
                 exists e, outcome = inr e
                           /\ shouldRetry defaultRetryOptions e = true)
         earlier.
Proof.
  apply (withRetry_completes_with_last_outcome Examples.flaky
           defaultRetryOptions 0%nat).
  simpl. lia.
Defined.

Lemma withRetry_without_attempts_witness :
  withRetry Examples.flaky Examples.no_attempts 0%nat
  = mkRun (inr Undefined) [] [] 0%nat.
Proof.
  apply (withRetry_without_attempts Examples.flaky Examples.no_attempts 0%nat).
  reflexivity.
Defined.

(** X4.  With a delay that is not negative and a factor of at least 1, the
    delay never decreases from one attempt to the next, and it never
    exceeds [maxDelay]. *)
Theorem calculateDelay_monotone opts attempt :
  0 <= initialDelay opts -> 1 <= backoffFactor opts ->
  calculateDelay attempt opts <= calculateDelay (S attempt) opts
  /\ calculateDelay attempt opts <= maxDelay opts.
Proof.
  intros Hi Hf. unfold calculateDelay. split; [|lia].
  apply Z.min_le_compat_r.
  rewrite Nat2Z.inj_succ, Z.pow_succ_r by lia.
  assert (0 <= backoffFactor opts ^ Z.of_nat attempt) by (apply Z.pow_nonneg; lia).
  nia.
Qed.

Lemma calculateDelay_monotone_witness :
  calculateDelay 3 defaultRetryOptions <= calculateDelay 4 defaultRetryOptions
  /\ calculateDelay 3 defaultRetryOptions <= maxDelay defaultRetryOptions.
Proof.
  apply (calculateDelay_monotone defaultRetryOptions 3); simpl; lia.
Defined.

End RetryLoopExamples.

(* ===================================================================== *)
(** * Wisp paths: the client builds them, the worker parses them *)
(* ===================================================================== *)

Section WispPathFacts.
Import JsString JsRegExp ServiceWorker ServiceWorkerManager.

Lemma append_cons c (a b : string) : String c a +:+ b = String c (a +:+ b).
Proof. done. Qed.

Lemma append_empty_r (a : string) : a +:+ "" = a.
Proof. induction a as [|x a IH]; [done|]. by rewrite append_cons, IH. Qed.

Lemma length_append (a b : string) :
  String.length (a +:+ b) = (String.length a + String.length b)%nat.
Proof. induction a as [|x a IH]; [done|]. rewrite append_cons. simpl. by rewrite IH. Qed.

Lemma take_append (a b : string) : take (String.length a) (a +:+ b) = a.
Proof.
  induction a as [|x a IH]; [by destruct b|]. rewrite append_cons. simpl.
  by rewrite IH.
Qed.

Lemma consumed_append (a b : string) : consumed (a +:+ b) b = a.
Proof.
  unfold consumed. rewrite length_append.
  replace (String.length a + String.length b - String.length b)%nat
    with (String.length a) by lia.
  apply take_append.
Qed.

(** One group matched on [a]: the capture is [a] and the rest of the
    pattern goes on after it. *)
Lemma run_groups_first g gs a b k r :
  matches_first g a b ->
  run_groups gs b (fun caps rest => k (a :: caps) rest) = Some r ->
  run_groups (g :: gs) (a +:+ b) k = Some r.
Proof.
  intros Hg Hrest. simpl. apply Hg. by rewrite consumed_append.
Qed.

Lemma matches_first_lit a b : matches_first (lit false a) a b.
Proof.
  intros A k x Hk. revert k Hk.
  induction a as [|c a IH]; intros k Hk; [done|].
  rewrite append_cons. simpl. rewrite Ascii.eqb_refl. by apply IH.
Qed.

Lemma matches_first_chr c b : matches_first (chr c) (String c "") b.
Proof. intros A k x Hk. rewrite append_cons. simpl. by rewrite Ascii.eqb_refl. Qed.

Lemma rep_greedy_stops {A} p (k : string -> option A) b :
  stops p b = true -> rep_greedy p k b = k b.
Proof. destruct b as [|c b]; [done|]. simpl. by destruct (p c). Qed.

Lemma matches_first_rep p a b :
  every p a = true -> stops p b = true -> matches_first (Rep true p) a b.
Proof.
  intros Ha Hb A k x Hk. simpl.
  induction a as [|c a IH].
  - change ("" +:+ b) with b. by rewrite rep_greedy_stops.
  - rewrite append_cons. simpl in *. apply andb_prop in Ha as [-> Ha].
    by rewrite (IH Ha).
Qed.

Lemma matches_first_plus p a b :
  a <> "" -> every p a = true -> stops p b = true -> matches_first (plus p) a b.
Proof.
  intros Hne Ha Hb A k x Hk. destruct a as [|c a]; [done|].
  simpl in Ha. apply andb_prop in Ha as [Hc Ha].
  rewrite append_cons.
  change (run (plus p) k (String c (a +:+ b)))
    with (if p c then run (Rep true p) k (a +:+ b) else None).
  rewrite Hc. by apply matches_first_rep.
Qed.

Lemma matches_first_opt r a b : matches_first r a b -> matches_first (opt r) a b.
Proof. intros Hr A k x Hk. simpl. by rewrite (Hr A k x Hk). Qed.

Lemma matches_first_opt_end c : matches_first (opt (chr c)) "" "".
Proof. by intros A k x Hk. Qed.

Lemma matches_first_Eos : matches_first Eos "" "".
Proof. by intros A k x Hk. Qed.

Lemma every_not_slash s : has_char "/" s = false -> every not_slash s = true.
Proof.
  induction s as [|c s IH]; [done|]. simpl. unfold not_slash at 1.
  rewrite (Ascii.eqb_sym c "/"). intros [-> Hs]%orb_false_elim.
  by rewrite (IH Hs).
Qed.

(** The match of the pattern of wisp paths on a path with a slash after
    the site name, and on a path that ends with the site name. *)
Lemma exec_wisp_path re did siteName rest :
  re = wisp_path_re ->
  did <> "" -> siteName <> "" ->
  has_char "/" did = false -> has_char "/" siteName = false ->
  every not_line_terminator rest = true ->
  exec_groups re ("/wisp/" +:+ did +:+ "/" +:+ siteName +:+ "/" +:+ rest)
  = Some (["/wisp/"; did; "/"; siteName; "/"; rest; ""], "")
  /\ exec_groups re ("/wisp/" +:+ did +:+ "/" +:+ siteName)
     = Some (["/wisp/"; did; "/"; siteName; ""; ""; ""], "").
Proof.
  intros -> Hd Hs Hds Hss Hrest. unfold exec_groups, wisp_path_re. split.
  - apply run_groups_first; [apply matches_first_lit|].
    apply run_groups_first;
      [apply matches_first_plus; [done|by apply every_not_slash|done]|].
    apply (run_groups_first _ _ "/"); [apply matches_first_chr|].
    apply run_groups_first;
      [apply matches_first_plus; [done|by apply every_not_slash|done]|].
    apply (run_groups_first _ _ "/");
      [apply matches_first_opt, matches_first_chr|].
    rewrite <- (append_empty_r rest) at 1.
    apply run_groups_first; [by apply matches_first_rep|].
    by apply (run_groups_first _ _ "" ""); [apply matches_first_Eos|].
  - apply run_groups_first; [apply matches_first_lit|].
    apply run_groups_first;
      [apply matches_first_plus; [done|by apply every_not_slash|done]|].
    apply (run_groups_first _ _ "/"); [apply matches_first_chr|].
    rewrite <- (append_empty_r siteName) at 1.
    apply run_groups_first;
      [apply matches_first_plus; [done|by apply every_not_slash|done]|].
    apply (run_groups_first _ _ "" ""); [apply matches_first_opt_end|].
    apply (run_groups_first _ _ "" ""); [by apply matches_first_rep|].
    by apply (run_groups_first _ _ "" ""); [apply matches_first_Eos|].
Qed.

(** X5.  A wisp path is parsed back into its parts.  For every DID and
    site name that are not empty and hold no slash, and every rest
    without a line terminator, the pattern of [handleFetch] splits
    [/wisp/{did}/{siteName}/{rest}] into the DID, the site name and the
    rest, and [/wisp/{did}/{siteName}] into the DID, the site name and the
    empty path. *)
Theorem parse_wisp_path_round_trip did siteName rest :
  did <> "" -> siteName <> "" ->
  has_char "/" did = false -> has_char "/" siteName = false ->
  every not_line_terminator rest = true ->
  parse_wisp_path ("/wisp/" +:+ did +:+ "/" +:+ siteName +:+ "/" +:+ rest)
  = Some (did, siteName, rest)
  /\ parse_wisp_path ("/wisp/" +:+ did +:+ "/" +:+ siteName)
     = Some (did, siteName, "").
Proof.
  intros Hd Hs Hds Hss Hrest. unfold parse_wisp_path.
  destruct (exec_wisp_path wisp_path_re did siteName rest) as [-> ->]; done.
Qed.


End WispPathFacts.

Section WispPathExamples.
Import JsString JsRegExp ServiceWorker ServiceWorkerManager.

Lemma parse_wisp_path_round_trip_witness :
  parse_wisp_path ("/wisp/" +:+ "did:plc:xyz" +:+ "/" +:+ "mysite" +:+ "/"
                   +:+ "a/b.html")
  = Some ("did:plc:xyz", "mysite", "a/b.html")
  /\ parse_wisp_path ("/wisp/" +:+ "did:plc:xyz" +:+ "/" +:+ "mysite")
     = Some ("did:plc:xyz", "mysite", "").
Proof.
  apply (parse_wisp_path_round_trip "did:plc:xyz" "mysite" "a/b.html");
    (discriminate || reflexivity).
Defined.


End WispPathExamples.

(* ===================================================================== *)
(** * The worker over its life: messages, requests, restarts *)
(* ===================================================================== *)

Section WorkerLifeFacts.
Import JsString Lexicon JsRegExp ServiceWorker.

Variable platform : Platform.

Lemma run_lit_startsWith {A} a (k : string -> option A) s :
  run (lit false a) k s
  = if startsWith a s then k (drop (String.length a) s) else None.
Proof.
  revert s k. induction a as [|c a IH]; intros s k; [by destruct s|].
  destruct s as [|x s]; [done|]. simpl. destruct (Ascii.eqb c x); [|done].
  apply IH.
Qed.

(** A path that matches the pattern of wisp paths starts with [/wisp/]. *)
Lemma parse_wisp_path_startsWith path parts :
  parse_wisp_path path = Some parts -> startsWith "/wisp/" path = true.
Proof.
  unfold parse_wisp_path, exec_groups, wisp_path_re.
  cbn [run_groups]. rewrite run_lit_startsWith.
  by destruct (startsWith "/wisp/" path).
Qed.

(** What [SET_MANIFEST] leaves. *)
Lemma handleMessage_SET_MANIFEST manifest p d h s st :
  (handleMessage (SET_MANIFEST manifest p d h s) st).1
  = mkState manifest p d (or_null h) (or_null s) true
      (<[SITE_INFO_KEY := StoredSiteInfo (mkSiteInfo p d (or_null h) (or_null s))]>
         (<[MANIFEST_KEY := StoredManifest manifest]> (manifests st)))
      (blobs st) (fetched st).
Proof. simpl. unfold storeSiteInfo, storeManifest, ensure_db. simpl. by destruct (db st). Qed.

Lemma rehydrate_stored manifest info current p d h s c ms bs fs :
  ms !! MANIFEST_KEY = Some (StoredManifest manifest) ->
  ms !! SITE_INFO_KEY = Some (StoredSiteInfo info) ->
  current = None ->
  rehydrate (mkState current p d h s c ms bs fs)
  = mkState manifest (si_pdsUrl info) (si_did info) (si_handle info)
      (si_siteName info) true ms bs fs.
Proof.
  intros Hm Hi ->. unfold rehydrate, getManifest, getSiteInfo, ensure_db.
  destruct c; simpl; by rewrite Hm, Hi.
Qed.

(** X7.  What [SET_MANIFEST] persists is what a restarted worker reads
    back.  After a [SET_MANIFEST] message, in every state, let the worker
    be stopped and started again: the first step of [handleFetch] restores
    the very state the message left, and so the restarted worker answers
    every request as the worker would have without the restart. *)
Theorem restart_after_SET_MANIFEST_is_invisible manifest p d h s st path :
  rehydrate (restart (handleMessage (SET_MANIFEST manifest p d h s) st).1)
  = (handleMessage (SET_MANIFEST manifest p d h s) st).1
  /\ (onFetch platform path
        (restart (handleMessage (SET_MANIFEST manifest p d h s) st).1)).1
     = (onFetch platform path
          (handleMessage (SET_MANIFEST manifest p d h s) st).1).1.
Proof.
  rewrite handleMessage_SET_MANIFEST.
  set (ms := <[SITE_INFO_KEY := _]> _).
  assert (Hm : ms !! MANIFEST_KEY = Some (StoredManifest manifest)).
  { subst ms. rewrite lookup_insert_ne by done. by rewrite lookup_insert_eq. }
  assert (Hi : ms !! SITE_INFO_KEY
               = Some (StoredSiteInfo (mkSiteInfo p d (or_null h) (or_null s)))).
  { subst ms. by rewrite lookup_insert_eq. }
  assert (Hre : rehydrate (restart (mkState manifest p d (or_null h) (or_null s)
                                      true ms (blobs st) (fetched st)))
                = mkState manifest p d (or_null h) (or_null s) true ms
                    (blobs st) (fetched st)).
  { unfold restart. simpl. by rewrite (rehydrate_stored manifest _ _ _ _ _ _ _ _ _ _ Hm Hi). }
  assert (Hid : rehydrate (mkState manifest p d (or_null h) (or_null s) true ms
                             (blobs st) (fetched st))
                = mkState manifest p d (or_null h) (or_null s) true ms
                    (blobs st) (fetched st)).
  { destruct manifest as [m|]; [done|].
    by rewrite (rehydrate_stored None _ _ _ _ _ _ _ _ _ _ Hm Hi). }
  split; [done|]. unfold onFetch, handleFetch.
  destruct (negb (startsWith "/wisp/" path)); [done|].
  destruct (parse_wisp_path path) as [[[requestDid requestSiteName] requestPath]|];
    [|done].
  by rewrite Hre, Hid.
Qed.

Lemma rehydrate_nothing_stored current p d h s c ms bs fs :
  ms !! MANIFEST_KEY = None -> current = None ->
  currentManifest (rehydrate (mkState current p d h s c ms bs fs)) = None
  /\ fetched (rehydrate (mkState current p d h s c ms bs fs)) = fs.
Proof.
  intros Hm ->. unfold rehydrate, getManifest, getSiteInfo, ensure_db.
  destruct c; simpl; rewrite Hm; by destruct (ms !! SITE_INFO_KEY) as [[|]|].
Qed.

(** X8.  [CLEAR_MANIFEST] on a worker that holds a database connection
    forgets the site for good: afterwards every wisp path is answered with
    503 and without a request to the network, also when the worker is
    stopped and started again in between. *)
Theorem cleared_manifest_answers_503 st path :
  db st = true ->
  is_Some (parse_wisp_path path) ->
  onFetch platform path (handleMessage CLEAR_MANIFEST st).1
  = (Replied (text_reply 503 "No manifest loaded. Please load a site first."),
     rehydrate (handleMessage CLEAR_MANIFEST st).1)
  /\ onFetch platform path (restart (handleMessage CLEAR_MANIFEST st).1)
     = (Replied (text_reply 503 "No manifest loaded. Please load a site first."),
        rehydrate (restart (handleMessage CLEAR_MANIFEST st).1))
  /\ fetched (rehydrate (handleMessage CLEAR_MANIFEST st).1) = fetched st
  /\ fetched (rehydrate (restart (handleMessage CLEAR_MANIFEST st).1)) = fetched st.
Proof.
  intros Hdb [[[requestDid requestSiteName] requestPath] Hparse].
  pose proof (parse_wisp_path_startsWith _ _ Hparse) as Hstart.
  simpl. rewrite Hdb. unfold restart, set_manifests. simpl.
  set (ms := delete SITE_INFO_KEY (delete MANIFEST_KEY (manifests st))).
  assert (Hm : ms !! MANIFEST_KEY = None).
  { subst ms. rewrite lookup_delete_ne by done. by rewrite lookup_delete_eq. }
  unfold onFetch, handleFetch. rewrite Hstart, Hparse. simpl.
  destruct (rehydrate_nothing_stored None None None None None true ms (blobs st)
              (fetched st) Hm eq_refl) as [-> ->].
  destruct (rehydrate_nothing_stored None None None None None false ms (blobs st)
              (fetched st) Hm eq_refl) as [-> ->].
  done.
Qed.

(** X9.  [CLEAR_MANIFEST] on a worker that holds no database connection
    does not forget the site.  Let the worker have no connection (it is
    so whenever it has just started) and let the store hold the manifest
    [m].  After [CLEAR_MANIFEST] the store is as it was, the next request
    reads [m] back, and no wisp path is answered with the 503 of a worker
    without a manifest. *)
Theorem clear_manifest_without_connection_keeps_the_site st m path :
  db st = false ->
  manifests st !! MANIFEST_KEY = Some (StoredManifest (Some m)) ->
  (handleMessage CLEAR_MANIFEST st).2 = [MANIFEST_CLEARED true]
  /\ currentManifest (handleMessage CLEAR_MANIFEST st).1 = None
  /\ manifests (handleMessage CLEAR_MANIFEST st).1 = manifests st
  /\ currentManifest (rehydrate (handleMessage CLEAR_MANIFEST st).1) = Some m
  /\ (onFetch platform path (handleMessage CLEAR_MANIFEST st).1).1
     <> Replied (text_reply 503 "No manifest loaded. Please load a site first.").
Proof.
  intros Hdb Hm. simpl. rewrite Hdb. simpl.
  assert (Hre : currentManifest
                  (rehydrate (mkState None None None None None false
                                (manifests st) (blobs st) (fetched st)))
                = Some m).
  { unfold rehydrate, getManifest, getSiteInfo, ensure_db. simpl. rewrite Hm.
    by destruct (manifests st !! SITE_INFO_KEY) as [[|]|]. }
  repeat (split; [done|]).
  unfold onFetch, handleFetch.
  destruct (negb (startsWith "/wisp/" path)); [done|].
  destruct (parse_wisp_path path) as [[[requestDid requestSiteName] requestPath]|];
    [|done].
  rewrite Hre.
  destruct (truthy _ && negb _); [done|].
  destruct (resolve m requestPath) as [file| |]; [| |done].
  - destruct (fetchBlobFromPDS _ _ _ _) as [[response|e] st']; [|done].
    unfold serve_response.
    destruct (_ || _ || _); [done|]. by destruct (_ || _).
  - unfold handleDirectoryListing. rewrite Hre.
    by destruct (traverse m _).
Qed.

(** X10.  What a control message can touch.  No message sends a request
    to the network; only [CLEAR_CACHE] changes the blob store; [GET_STATUS],
    [CLEAR_CACHE] and the messages of an unknown type leave the manifest,
    the site information and their store as they are; and every message
    of a known type is answered with exactly one reply. *)
Theorem handleMessage_frame data st :
  fetched (handleMessage data st).1 = fetched st
  /\ (data <> CLEAR_CACHE -> blobs (handleMessage data st).1 = blobs st)
  /\ (data = GET_STATUS \/ data = CLEAR_CACHE \/ (exists type, data = OtherMessage type) ->
      currentManifest (handleMessage data st).1 = currentManifest st
      /\ pdsUrl (handleMessage data st).1 = pdsUrl st
      /\ did (handleMessage data st).1 = did st
      /\ manifests (handleMessage data st).1 = manifests st)
  /\ ((forall type, data <> OtherMessage type) ->
      List.length (handleMessage data st).2 = 1%nat)
  /\ (forall type, (handleMessage (OtherMessage type) st) = (st, [])).
Proof.
  split; [|split; [|split; [|split]]].
  - destruct data; simpl; try done.
    + unfold storeSiteInfo, storeManifest, ensure_db. simpl. by destruct (db st).
    + by destruct (db st).
    + by destruct (db st).
  - intros Hne. destruct data; simpl; try done.
    + unfold storeSiteInfo, storeManifest, ensure_db. simpl. by destruct (db st).
    + by destruct (db st).
  - intros [->|[->|[type ->]]]; simpl; try done. by destruct (db st).
  - intros Hknown. destruct data; try done. by destruct (Hknown type).
  - done.
Qed.

(** Fetching a blob leaves the variables of the worker and the store of
    manifests as they are. *)
Lemma fetchBlob_frame cid mimeType st :
  currentManifest (fetchBlobFromPDS platform cid mimeType st).2 = currentManifest st
  /\ pdsUrl (fetchBlobFromPDS platform cid mimeType st).2 = pdsUrl st
  /\ did (fetchBlobFromPDS platform cid mimeType st).2 = did st
  /\ currentSiteName (fetchBlobFromPDS platform cid mimeType st).2 = currentSiteName st
  /\ manifests (fetchBlobFromPDS platform cid mimeType st).2 = manifests st.
Proof.
  unfold fetchBlobFromPDS, getBlob, storeBlob, ensure_db, log_fetch, set_blobs, set_db.
  destruct (negb (truthy (pdsUrl st)) || negb (truthy (did st))); [done|].
  destruct (db st) eqn:Hdb; simpl.
  all: destruct (blobs st !! cid); simpl; [done|].
  all: destruct (network _ _ _) as [|status statusText raw]; simpl; [done|].
  all: destruct (negb (response_ok status)); simpl; [done|].
  all: destruct (decode_blob platform cid raw) as [data|]; simpl; [|done].
  all: destruct (blob_size _ <=? five_megabytes); simpl; [|done].
  all: by rewrite ?Hdb.
Qed.

(** The requests of one fetch: none, or one for the blob, which was not
    cached. *)
Lemma fetchBlob_requests cid mimeType st :
  fetched (fetchBlobFromPDS platform cid mimeType st).2 = fetched st
  \/ (blobs st !! cid = None
      /\ fetched (fetchBlobFromPDS platform cid mimeType st).2
         = fetched st ++ [blob_url st cid]).
Proof.
  unfold fetchBlobFromPDS, getBlob, storeBlob, ensure_db, log_fetch, set_blobs, set_db,
    blob_url.
  destruct (negb (truthy (pdsUrl st)) || negb (truthy (did st))); [by left|].
  destruct (db st) eqn:Hdb; simpl.
  all: destruct (blobs st !! cid); simpl; [by left|]; right; split; [done|].
  all: destruct (network _ _ _) as [|status statusText raw]; simpl; [done|].
  all: destruct (negb (response_ok status)); simpl; [done|].
  all: destruct (decode_blob platform cid raw) as [data|]; simpl; [|done].
  all: destruct (blob_size _ <=? five_megabytes); simpl; [|done].
  all: by rewrite ?Hdb.
Qed.

(** The blobs after one fetch: as before, or with one blob more, of at
    most five megabytes. *)
Lemma fetchBlob_blobs cid mimeType st :
  blobs (fetchBlobFromPDS platform cid mimeType st).2 = blobs st
  \/ exists blob,
       blob_size blob <= five_megabytes
       /\ blobs (fetchBlobFromPDS platform cid mimeType st).2
          = <[cid := blob]> (blobs st).
Proof.
  unfold fetchBlobFromPDS, getBlob, storeBlob, ensure_db, log_fetch, set_blobs, set_db.
  destruct (negb (truthy (pdsUrl st)) || negb (truthy (did st))); [by left|].
  destruct (db st) eqn:Hdb; simpl.
  all: destruct (blobs st !! cid); simpl; [by left|].
  all: destruct (network _ _ _) as [|status statusText raw]; simpl; [by left|].
  all: destruct (negb (response_ok status)); simpl; [by left|].
  all: destruct (decode_blob platform cid raw) as [data|]; simpl; [|by left].
  all: destruct (Z.leb_spec (blob_size (mkBlob data (content_type mimeType cid)))
                   five_megabytes) as [Hle|Hgt]; simpl; [|by left].
  all: right; eexists; split; [exact Hle|]; rewrite ?Hdb; reflexivity.
Qed.

Lemma rehydrate_frame st :
  blobs (rehydrate st) = blobs st /\ fetched (rehydrate st) = fetched st
  /\ manifests (rehydrate st) = manifests st.
Proof.
  unfold rehydrate, getManifest, getSiteInfo, ensure_db.
  destruct (currentManifest st); [done|].
  simpl. destruct (db st) eqn:Hdb; simpl; rewrite ?Hdb; simpl;
    by destruct (manifests st !! SITE_INFO_KEY) as [[|]|].
Qed.

(** The stores after a request: those after the blob fetch it made, if
    any. *)
Lemma onFetch_stores path st :
  (blobs (onFetch platform path st).2 = blobs st
   /\ fetched (onFetch platform path st).2 = fetched st)
  \/ exists cid mimeType,
       blobs (onFetch platform path st).2
       = blobs (fetchBlobFromPDS platform cid mimeType (rehydrate st)).2
       /\ fetched (onFetch platform path st).2
          = fetched (fetchBlobFromPDS platform cid mimeType (rehydrate st)).2.
Proof.
  unfold onFetch, handleFetch.
  destruct (negb (startsWith "/wisp/" path)); [by left|].
  destruct (parse_wisp_path path) as [[[requestDid requestSiteName] requestPath]|];
    [|by left].
  destruct (rehydrate_frame st) as (Hb & Hf & _).
  destruct (currentManifest (rehydrate st)) as [manifest|]; [|by left].
  destruct (truthy _ && negb _); [by left|].
  destruct (resolve manifest requestPath) as [file| |].
  - right. exists (cid file), (mimeType file).
    by destruct (fetchBlobFromPDS _ _ _ _) as [[response|e] st'].
  - left. by destruct (handleDirectoryListing _ _).
  - by left.
Qed.

(** X11.  The blob cache never holds a blob of more than five megabytes.
    If every cached blob is at most [5 * 1024 * 1024] bytes long, this is
    still so after every session of requests, control messages and
    restarts of the worker, whatever the network answers. *)
Theorem blob_cache_holds_small_blobs_only session : forall st,
  map_Forall (fun _ blob => blob_size blob <= 5 * 1024 * 1024) (blobs st) ->
  map_Forall (fun _ blob => blob_size blob <= 5 * 1024 * 1024)
    (blobs (serve_session platform session st)).
Proof.
  induction session as [|e session IH]; intros st Hsmall; [done|].
  simpl. apply IH. destruct e as [path|data|]; simpl.
  - destruct (onFetch_stores path st) as [[-> _]|(cid & mimeType & -> & _)];
      [done|].
    destruct (rehydrate_frame st) as (Hb & _).
    destruct (fetchBlob_blobs cid mimeType (rehydrate st)) as [->|(blob & Hle & ->)].
    + by rewrite Hb.
    + rewrite Hb. by apply map_Forall_insert_2.
  - destruct (handleMessage_frame data st) as (_ & Hb & _).
    destruct data; try (by rewrite Hb).
    simpl. destruct (db st); [|done]. simpl. apply map_Forall_empty.
  - done.
Qed.

End WorkerLifeFacts.

(* ===================================================================== *)
(** * Requests: what is served, and from where *)
(* ===================================================================== *)

Section WorkerRequestFacts.
Import JsString Lexicon JsRegExp ServiceWorker.

Variable platform : Platform.

Lemma first_found_Some {A B} (f : A -> option B) l r :
  first_found f l = Some r -> exists x, In x l /\ f x = Some r.
Proof.
  induction l as [|x l IH]; [done|]. simpl.
  destruct (f x) as [y|] eqn:Hx.
  - intros [= <-]. exists x. by split; [left|].
  - intros H. destruct (IH H) as (z & Hin & Hz). exists z. by split; [right|].
Qed.

Lemma lookup_segments_listed manifest normalized file :
  lookup_segments manifest normalized = Some file ->
  exists segments directory name,
    traverse manifest segments = Some directory
    /\ file_named directory name = Some file.
Proof.
  unfold lookup_segments.
  destruct (traverse manifest _) as [directory|] eqn:Hdir; [|done].
  intros Hfile. by eexists _, directory, _.
Qed.

(** A file that [handleFetch] decides to serve is an entry of a directory
    of the manifest. *)
Lemma resolve_listed manifest requestPath file :
  resolve manifest requestPath = Serve file ->
  exists segments directory name,
    traverse manifest segments = Some directory
    /\ file_named directory name = Some file.
Proof.
  assert (Hfile : forall path f, lookupFile manifest path = Some f ->
            exists segments directory name,
              traverse manifest segments = Some directory
              /\ file_named directory name = Some f).
  { intros path f. unfold lookupFile.
    destruct (String.eqb _ _).
    - intros (x & _ & Hx)%first_found_Some. by apply lookup_segments_listed in Hx.
    - apply lookup_segments_listed. }
  unfold resolve.
  destruct (lookupFile manifest requestPath) as [f|] eqn:H1.
  { intros [= <-]. by apply Hfile in H1. }
  destruct (lookupIndexFile manifest requestPath) as [f|] eqn:H2.
  { intros [= <-]. unfold lookupIndexFile in H2.
    destruct (traverse manifest _) as [directory|] eqn:Hdir; [|done].
    apply first_found_Some in H2 as (x & _ & Hx). by eexists _, directory, x. }
  destruct (is_directory manifest requestPath); [done|].
  destruct (lookupFile manifest (requestPath +:+ ".html")) as [f|] eqn:H3; [|done].
  intros [= <-]. by apply Hfile in H3.
Qed.

(** X12.  The requests of the worker.  Handling one fetch event sends no
    request to the network, or exactly one: the request of
    [com.atproto.sync.getBlob] for the content identifier of a file that
    is an entry of a directory of the manifest and that the blob cache
    did not hold. *)
Theorem onFetch_requests_blobs_of_the_manifest_only path st :
  fetched (onFetch platform path st).2 = fetched st
  \/ exists manifest segments directory name file,
       currentManifest (onFetch platform path st).2 = Some manifest
       /\ traverse manifest segments = Some directory
       /\ file_named directory name = Some file
       /\ blobs st !! cid file = None
       /\ fetched (onFetch platform path st).2
          = fetched st ++ [blob_url (onFetch platform path st).2 (cid file)].
Proof.
  unfold onFetch, handleFetch.
  destruct (negb (startsWith "/wisp/" path)); [by left|].
  destruct (parse_wisp_path path) as [[[requestDid requestSiteName] requestPath]|];
    [|by left].
  destruct (rehydrate_frame st) as (Hb & Hf & _).
  destruct (currentManifest (rehydrate st)) as [manifest|] eqn:Hm; [|by left].
  destruct (truthy _ && negb _); [by left|].
  destruct (resolve manifest requestPath) as [file| |] eqn:Hres.
  - destruct (fetchBlob_requests platform (cid file) (mimeType file) (rehydrate st))
      as [Hsame|[Hmiss Hone]].
    + left. destruct (fetchBlobFromPDS _ _ _ _) as [[response|e] st'].
      all: simpl in *; congruence.
    + right. apply resolve_listed in Hres as (segments & directory & name & Ht & Hn).
      destruct (fetchBlob_frame platform (cid file) (mimeType file) (rehydrate st))
        as (Hm' & Hp' & Hd' & _).
      exists manifest, segments, directory, name, file.
      destruct (fetchBlobFromPDS _ _ _ _) as [[response|e] st'].
      all: simpl in *; unfold blob_url in *; rewrite Hm', Hp', Hd', Hone, Hf.
      all: by rewrite <- Hb.
  - left. by destruct (handleDirectoryListing _ _).
  - by left.
Qed.

(** X13.  The site name of a wisp path is not looked at.  Two paths that
    the worker parses into the same DID and the same rest are handled
    alike, whatever their site names: the same reply and the same state
    afterwards. *)
Theorem site_name_of_the_path_is_ignored path1 path2 requestDid name1 name2
  requestPath st :
  parse_wisp_path path1 = Some (requestDid, name1, requestPath) ->
  parse_wisp_path path2 = Some (requestDid, name2, requestPath) ->
  onFetch platform path1 st = onFetch platform path2 st.
Proof.
  intros H1 H2. unfold onFetch, handleFetch.
  rewrite (parse_wisp_path_startsWith _ _ H1), (parse_wisp_path_startsWith _ _ H2).
  by rewrite H1, H2.
Qed.



End WorkerRequestFacts.

(* ===================================================================== *)
(** * Directories: index files and listings *)
(* ===================================================================== *)

Section WorkerDirectoryFacts.
Import JsString Lexicon JsRegExp ServiceWorker.








Lemma strip_trailing_slash_append s c t :
  strip_trailing_slash (s +:+ String c t) = s +:+ strip_trailing_slash (String c t).
Proof.
  induction s as [|a s IH]; [done|]. rewrite !append_cons, <- IH.
  by destruct s.
Qed.

(** X17.  The index file of a directory is the file at [index.html] or,
    failing that, at [index.htm] under the path of the directory.  For
    every path of one or more segments that are not empty and hold no
    slash, and that is in the normal form of the worker,
    [lookupIndexFile] on the path is [lookupFile] on the path followed by
    [/index.html] or else by [/index.htm]. *)
Theorem lookupIndexFile_is_lookupFile_of_the_index manifest segments :
  segments <> [] ->
  Forall (fun s => s <> "" /\ has_char "/" s = false) segments ->
  normalizePath (join "/" segments) = join "/" segments ->
  lookupIndexFile manifest (join "/" segments)
  = first_found
      (fun indexFile => lookupFile manifest (join "/" segments +:+ "/" +:+ indexFile))
      indexFiles.
Proof.
  intros Hne Hsegs Hnorm.
  assert (Hnoslash : Forall (fun x => has_char "/" x = false) segments)
    by (eapply Forall_impl; [exact Hsegs|]; by intros ? [_ ?]).
  assert (Hfilter : List.filter non_empty segments = segments).
  { clear Hne Hnorm Hnoslash. induction Hsegs as [|s l [Hs _] _ IH]; [done|].
    simpl. unfold non_empty at 1.
    destruct (String.eqb_spec s ""); [done|]. simpl. by rewrite IH. }
  assert (Hjoin : join "/" segments <> "").
  { destruct segments as [|x l]; [done|]. apply join_not_empty.
    by inversion Hsegs as [|? ? [? _] _]. }
  destruct (worker_normal_form _ Hnorm) as (Hlead & Hcut & Htrail).
  assert (Hfile : forall indexFile,
            In indexFile indexFiles ->
            lookupFile manifest (join "/" segments +:+ "/" +:+ indexFile)
            = match traverse manifest segments with
              | Some current => file_named current indexFile
              | None => None
              end).
  { intros indexFile Hin.
    assert (Hix : indexFile <> "" /\ has_char "/" indexFile = false
                  /\ take_until is_query_or_hash ("/" +:+ indexFile)
                     = "/" +:+ indexFile
                  /\ strip_trailing_slash ("/" +:+ indexFile) = "/" +:+ indexFile).
    { destruct Hin as [<-|[<-|[]]]; done. }
    destruct Hix as (Hi1 & Hi2 & Hi3 & Hi4).
    assert (Hn : normalizePath (join "/" segments +:+ "/" +:+ indexFile)
                 = join "/" segments +:+ "/" +:+ indexFile).
    { unfold normalizePath.
      destruct (join "/" segments) as [|a p] eqn:Hp; [done|].
      rewrite append_cons.
      assert (Ha : Ascii.eqb a "/" = false).
      { rewrite startsWith_slash_cons in Hlead. exact Hlead. }
      destruct (String.eqb_spec (String a (p +:+ "/" +:+ indexFile)) "/")
        as [[= -> Hp']|_].
      { by destruct p. }
      simpl String.eqb. cbn [orb]. unfold strip_leading_slash. rewrite Ha.
      rewrite <- append_cons.
      change ("/" +:+ indexFile) with (String "/" indexFile) in *.
      rewrite take_until_app_clean by done. rewrite Hi3.
      by rewrite strip_trailing_slash_append, Hi4. }
    unfold lookupFile. rewrite Hn.
    destruct (String.eqb_spec (join "/" segments +:+ "/" +:+ indexFile) "")
      as [He|_].
    { destruct (join "/" segments); done. }
    unfold lookup_segments.
    change ("/" +:+ indexFile) with (String "/" indexFile).
    rewrite split_app_sep, (split_without_sep _ _ Hi2).
    rewrite (split_join "/") by done.
    rewrite removelast_last, last_last. done. }
  unfold lookupIndexFile. rewrite Hnorm.
  change (fun s => negb (String.eqb s "")) with non_empty.
  rewrite (split_join "/") by done. rewrite Hfilter.
  unfold indexFiles. simpl first_found at 2.
  rewrite !Hfile by (simpl; tauto).
  by destruct (traverse manifest segments) as [current|].
Qed.

End WorkerDirectoryFacts.

(* ===================================================================== *)
(** * The conversion of the new format, and the size of a merge *)
(* ===================================================================== *)

Section ConversionFacts.
Import JsString Lexicon.

(** Induction on a node, with the property assumed of the nodes of its
    entries. *)
Lemma WispNode_entries_ind (P : WispNode -> Prop) :
  (forall type ref blobMimeType blobSize nodeMimeType,
      P (FileNode type ref blobMimeType blobSize nodeMimeType)) ->
  (forall type, P (DirectoryNode type None)) ->
  (forall type entries,
      Forall (fun entry => P entry.2) entries ->
      P (DirectoryNode type (Some entries))) ->
  forall node, P node.
Proof.
  intros Hfile Hnone Hsome. fix IH 1.
  intros [type ref blobMimeType blobSize nodeMimeType|type [entries|]];
    [apply Hfile| |apply Hnone].
  apply Hsome. induction entries as [|[name node] rest IHrest]; constructor.
  - apply IH.
  - apply IHrest.
Qed.

Lemma or_else_truthy a b : b <> "" -> truthy (Some (or_else a b)) = true.
Proof. intros Hb. destruct a as [[|c s]|]; simpl; by destruct b. Qed.

Lemma typed_files_empty : typed_files (mkDir (Some ∅) (Some ∅)).
Proof.
  intros [|name [|next rest]] file; [done| |].
  - unfold file_at, file_named. simpl. by rewrite lookup_empty.
  - rewrite file_at_cons by done. unfold dir_named. simpl.
    by rewrite lookup_empty.
Qed.

Lemma both_maps_empty : both_maps (mkDir (Some ∅) (Some ∅)).
Proof.
  intros [|name rest] sub.
  - intros [= <-]. by split; eexists.
  - simpl. unfold dir_named. simpl. by rewrite lookup_empty.
Qed.

Lemma typed_files_set_file dir name file :
  typed_files dir -> truthy (mimeType file) = true ->
  typed_files (set_file dir name file).
Proof.
  intros Hdir Hfile [|n [|next rest]] f; [done| |].
  - unfold file_at, file_named, set_file. simpl. rewrite lookup_insert.
    case_decide as Hn; [by intros [= <-]|].
    rewrite default_files_lookup. apply (Hdir [n]).
  - rewrite file_at_cons by done. intros Hf. apply (Hdir (n :: next :: rest)).
    by rewrite file_at_cons by done.
Qed.

Lemma typed_files_set_dir dir name sub :
  typed_files dir -> typed_files sub -> typed_files (set_dir dir name sub).
Proof.
  intros Hdir Hsub [|n [|next rest]] f; [done| |].
  - intros Hf. by apply (Hdir [n]).
  - rewrite file_at_cons by done. unfold dir_named, set_dir. simpl.
    rewrite lookup_insert. case_decide as Hn; [intros Hf; by apply (Hsub (next :: rest) f)|].
    rewrite default_dirs_lookup.
    intros Hf. apply (Hdir (n :: next :: rest)). by rewrite file_at_cons by done.
Qed.

Lemma both_maps_set_file dir name file :
  both_maps dir -> both_maps (set_file dir name file).
Proof.
  intros Hdir [|n rest] sub.
  - intros [= <-]. split; [by eexists|]. by destruct (Hdir [] dir eq_refl).
  - intros Ht. by apply (Hdir (n :: rest)).
Qed.

Lemma both_maps_set_dir dir name sub :
  both_maps dir -> both_maps sub -> both_maps (set_dir dir name sub).
Proof.
  intros Hdir Hsub [|n rest] d.
  - intros [= <-]. split; [|by eexists]. by destruct (Hdir [] dir eq_refl).
  - simpl. unfold dir_named, set_dir. simpl. rewrite lookup_insert.
    case_decide as Hn; [intros Ht; by apply (Hsub _ _ Ht)|].
    rewrite default_dirs_lookup. intros Ht. by apply (Hdir (n :: rest)).
Qed.

(** The loop keeps what holds of the directory under construction, when
    every converted node has it. *)
Lemma convert_entries_keeps convert entries : forall dir result,
  Forall (fun entry => forall d, convert entry.2 = Some d ->
                                 typed_files d /\ both_maps d) entries ->
  typed_files dir /\ both_maps dir ->
  convert_entries convert entries dir = Some result ->
  typed_files result /\ both_maps result.
Proof.
  induction entries as [|[name node] rest IH]; intros dir result Hall [Ht Hb].
  { by intros [= <-]. }
  inversion Hall as [|? ? Hnode Hrest]; subst. simpl.
  destruct (is_file_type (node_type node)).
  - destruct node as [type ref blobMimeType blobSize nodeMimeType|]; [|done].
    destruct (extractCidFromRef ref) as [c|]; [|done].
    apply IH; [done|]. split.
    + apply typed_files_set_file; [done|]. apply or_else_truthy.
      by destruct blobMimeType as [[|]|].
    + by apply both_maps_set_file.
  - destruct (is_directory_type (node_type node)); [|by apply IH].
    destruct (convert node) as [sub|] eqn:Hsub; [|done].
    destruct (Hnode sub Hsub) as [Hts Hbs].
    apply IH; [done|]. split.
    + by apply typed_files_set_dir.
    + by apply both_maps_set_dir.
Qed.

Lemma convertDirectoryNewToOld_complete dirNew : forall directory,
  convertDirectoryNewToOld dirNew = Some directory ->
  typed_files directory /\ both_maps directory.
Proof.
  induction dirNew as [type ref blobMimeType blobSize nodeMimeType|type|type entries IH]
    using WispNode_entries_ind; intros directory.
  - intros [= <-]. split; [apply typed_files_empty|apply both_maps_empty].
  - intros [= <-]. split; [apply typed_files_empty|apply both_maps_empty].
  - simpl. apply convert_entries_keeps; [done|].
    split; [apply typed_files_empty|apply both_maps_empty].
Qed.


Lemma last_defined_In {A} (l : list (option A)) x :
  last_defined l = Some x -> In (Some x) l.
Proof.
  unfold last_defined.
  assert (H : forall acc, fold_left later l acc = Some x ->
                          In (Some x) l \/ acc = Some x).
  { induction l as [|o l IH]; intros acc; [by right|]. simpl.
    intros Hf. destruct (IH _ Hf) as [Hin|Hacc]; [by left; right|].
    destruct o as [y|]; simpl in Hacc; [left; left; congruence|by right]. }
  intros Hf. by destruct (H None Hf).
Qed.

(** X19.  The manifest of a site published in the new format gives every
    file a MIME type.  When every record is in the new format and
    [fetchWispSiteManifest] merges their conversions into a manifest,
    every file of the manifest has a MIME type that is not empty; so the
    content type the worker serves for it is the one of the manifest, and
    is never guessed from the content identifier. *)
Theorem site_manifest_of_new_format_types_every_file root subfs manifest :
  Forall (fun record => exists node, record = NewFormat node) (root :: subfs) ->
  site_manifest root subfs = Some manifest ->
  typed_files manifest
  /\ forall p file blobCid,
       file_at manifest p = Some file ->
       Some (ServiceWorker.content_type (mimeType file) blobCid) = mimeType file.
Proof.
  intros Hnew Hsite.
  assert (Htyped : typed_files manifest).
  { unfold site_manifest in Hsite.
    destruct (mapM record_directory (root :: subfs)) as [directories|] eqn:Hmap;
      [|done].
    simpl in Hsite. injection Hsite as <-.
    apply mapM_Some_1 in Hmap.
    intros p file Hfile. rewrite file_at_mergeDirectories in Hfile.
    apply last_defined_In in Hfile.
    apply in_map_iff in Hfile as (od & Hod & Hin).
    apply list_elem_of_In, list_elem_of_fmap in Hin as (d & -> & Hd).
    simpl in Hod.
    apply list_elem_of_lookup in Hd as [i Hi].
    destruct (Forall2_lookup_r _ _ _ i d Hmap Hi) as (record & Hr & Hconv).
    destruct (Forall_lookup_1 _ _ _ _ Hnew Hr) as [node Hrec]. subst record.
    assert (Hd' : typed_files d).
    { destruct node as [|type [entries|]].
      - injection Hconv as <-. intros [|n [|n' q]] f; by done.
      - by apply convertDirectoryNewToOld_complete in Hconv as [? _].
      - injection Hconv as <-. intros [|n [|n' q]] f; by done. }
    by apply (Hd' p). }
  split; [done|]. intros p file blobCid Hfile.
  specialize (Htyped _ _ Hfile). unfold ServiceWorker.content_type.
  by destruct (mimeType file) as [[|c s]|].
Qed.

Lemma countFiles_unfold fs ds :
  countFiles (mkDir fs ds)
  = (match fs with
     | Some m => stdpp.base.size m
     | None => 0
     end
     + match ds with
       | Some m => map_fold (fun _ subDir count => count + countFiles subDir) 0 m
       | None => 0
       end)%nat.
Proof. reflexivity. Qed.

Lemma size_union_le (a b : gmap string WispFile) :
  (stdpp.base.size (a ∪ b) <= stdpp.base.size a + stdpp.base.size b)%nat.
Proof.
  induction a as [|k x a Hk IH] using map_ind.
  - rewrite (left_id_L ∅ (∪)), map_size_empty. lia.
  - rewrite <- insert_union_l, (map_size_insert_None k x a Hk).
    pose proof (map_size_insert k x (a ∪ b)) as Hs.
    destruct ((a ∪ b) !! k); unfold id in Hs; lia.
Qed.

Lemma count_insert_fresh (m : gmap string WispDirectory) k sub :
  m !! k = None ->
  map_fold (fun _ subDir count => count + countFiles subDir)%nat 0%nat (<[k := sub]> m)
  = (map_fold (fun _ subDir count => count + countFiles subDir) 0 m
     + countFiles sub)%nat.
Proof. intros Hk. rewrite map_fold_insert_L; [done| |done]. intros. lia. Qed.

Lemma count_insert_held (m : gmap string WispDirectory) k old sub :
  m !! k = Some old ->
  (map_fold (fun _ subDir count => count + countFiles subDir) 0 (<[k := sub]> m)
   + countFiles old
   = map_fold (fun _ subDir count => count + countFiles subDir) 0 m
     + countFiles sub)%nat.
Proof.
  intros Hk. rewrite <- (insert_delete_eq m k sub).
  rewrite <- (insert_delete_id m k old Hk) at 2.
  rewrite !count_insert_fresh by apply lookup_delete_eq. lia.
Qed.

(** Merging does not invent files. *)
Lemma countFiles_merge_into dir : forall result,
  (countFiles (merge_into result dir) <= countFiles result + countFiles dir)%nat.
Proof.
  induction dir as [dirFiles dirDirs IH] using WispDirectory_children_ind.
  intros [resultFiles resultDirs].
  rewrite merge_into_unfold, !countFiles_unfold. simpl files. simpl dirs.
  assert (Hfiles :
    (match match dirFiles with
           | Some fs => Some (fs ∪ default ∅ resultFiles)
           | None => resultFiles
           end with
     | Some m => stdpp.base.size m
     | None => 0
     end
     <= match resultFiles with Some m => stdpp.base.size m | None => 0 end
        + match dirFiles with Some m => stdpp.base.size m | None => 0 end)%nat).
  { destruct dirFiles as [fs|]; [|lia].
    pose proof (size_union_le fs (default ∅ resultFiles)) as Hle.
    destruct resultFiles as [rf|]; simpl in *; [lia|].
    rewrite map_size_empty in Hle. lia. }
  assert (Hdirs :
    (match match dirDirs with
           | Some ds =>
               Some (map_fold (merge_entry merge_into) (default ∅ resultDirs) ds)
           | None => resultDirs
           end with
     | Some m => map_fold (fun _ subDir count => count + countFiles subDir) 0 m
     | None => 0
     end
     <= match resultDirs with
        | Some m => map_fold (fun _ subDir count => count + countFiles subDir) 0 m
        | None => 0
        end
        + match dirDirs with
          | Some m => map_fold (fun _ subDir count => count + countFiles subDir) 0 m
          | None => 0
          end)%nat).
  { destruct dirDirs as [ds|]; [|lia].
    assert (Hbase :
      (map_fold (fun _ subDir count => count + countFiles subDir) 0
         (default ∅ resultDirs)
       = match resultDirs with
         | Some m => map_fold (fun _ subDir count => count + countFiles subDir) 0 m
         | None => 0
         end)%nat) by (by destruct resultDirs).
    rewrite <- Hbase. generalize (default ∅ resultDirs). intros base.
    simpl in IH. revert IH.
    apply (map_fold_weak_ind
             (fun acc m =>
                (forall k sub, m !! k = Some sub ->
                   forall result,
                     (countFiles (merge_into result sub)
                      <= countFiles result + countFiles sub)%nat) ->
                (map_fold (fun _ subDir count => count + countFiles subDir) 0 acc
                 <= map_fold (fun _ subDir count => count + countFiles subDir) 0 base
                    + map_fold (fun _ subDir count => count + countFiles subDir) 0 m)%nat)).
    - intros _. rewrite map_fold_empty. lia.
    - intros k sub m acc Hk Hacc Hsub.
      assert (Hle : (map_fold (fun _ subDir count => count + countFiles subDir) 0 acc
                     <= map_fold (fun _ subDir count => count + countFiles subDir) 0 base
                        + map_fold (fun _ subDir count => count + countFiles subDir) 0 m)%nat).
      { apply Hacc. intros k' sub' Hk'. apply (Hsub k').
        rewrite lookup_insert_ne; [done|]. intros ->. congruence. }
      rewrite (count_insert_fresh m k sub Hk).
      unfold merge_entry. destruct (acc !! k) as [existing|] eqn:Hheld.
      + pose proof (count_insert_held acc k existing (merge_into existing sub) Hheld).
        pose proof (Hsub k sub (lookup_insert_eq _ _ _) existing). lia.
      + rewrite (count_insert_fresh acc k sub Hheld). lia. }
  lia.
Qed.

(** X20.  Merging does not invent files.  The number of files of
    [mergeDirectories(D1, ..., Dn)], as [countFiles] counts them, is at
    most the sum of the numbers of files of the trees that are not
    [null]. *)
Theorem countFiles_mergeDirectories_bound directories :
  (countFiles (mergeDirectories directories)
   <= fold_right Nat.add 0
        (List.map (fun dir => from_option countFiles 0 dir) directories))%nat.
Proof.
  unfold mergeDirectories.
  assert (H : forall result,
            (countFiles (fold_left merge_next directories result)
             <= countFiles result
                + fold_right Nat.add 0
                    (List.map (fun dir => from_option countFiles 0 dir)
                       directories))%nat).
  { induction directories as [|dir directories IH]; intros result; simpl; [lia|].
    specialize (IH (merge_next result dir)).
    destruct dir as [d|]; simpl in *; [|lia].
    pose proof (countFiles_merge_into d result). lia. }
  apply (H createEmptyDirectory).
Qed.

End ConversionFacts.

(* ===================================================================== *)
(** * Style sheets and MIME types *)
(* ===================================================================== *)

Section RewriteFacts.
Import JsString Lexicon JsRegExp ServiceWorker.

Lemma startsWith_append a b s :
  startsWith (a +:+ b) s
  = startsWith a s && startsWith b (drop (String.length a) s).
Proof.
  revert s. induction a as [|c a IH]; intros s.
  - by destruct s.
  - rewrite append_cons. destruct s as [|x s]; [done|]. simpl.
    rewrite IH. by destruct (Ascii.eqb c x).
Qed.

Lemma startsWith_cons a p b s :
  startsWith (String a p) (String b s) = Ascii.eqb a b && startsWith p s.
Proof. done. Qed.

(** The pattern of [rewriteCssUrls] matches only at [url(] followed by a
    slash, or by a quote and a slash. *)
Lemma exec_css_url_re_None s :
  startsWith "url(/" s = false ->
  startsWith "url('/" s = false ->
  startsWith ("url(" +:+ dq +:+ "/") s = false ->
  exec_groups css_url_re s = None.
Proof.
  assert (Hlen : String.length "url(" = 4%nat) by done.
  change "url(/" with ("url(" +:+ "/"). change "url('/" with ("url(" +:+ "'/").
  rewrite !startsWith_append, Hlen.
  unfold exec_groups, css_url_re. cbn [run_groups].
  rewrite run_lit_startsWith, Hlen.
  destruct (startsWith "url(" s); [|done]. cbn [andb].
  generalize (drop 4 s). intros rest H1 H2 H3.
  destruct rest as [|c rest]; [done|].
  rewrite startsWith_cons in H1. rewrite startsWith_cons in H2.
  unfold dq in H3. rewrite startsWith_cons in H3.
  cbn [startsWith String.length drop] in H1, H3.
  rewrite andb_true_r in H3.
  rewrite andb_true_r in H1.
  cbn [run opt chr plus]. rewrite H1.
  destruct (quote c) eqn:Hq; [|done].
  destruct rest as [|c' rest]; [done|].
  rewrite ?startsWith_cons in H2. rewrite ?startsWith_cons in H3.
  cbn [startsWith] in H2, H3.
  destruct (Ascii.eqb "/" c') eqn:Hc'; [exfalso|done].
  rewrite ?andb_true_r in H2. rewrite ?andb_true_r in H3.
  unfold quote, one_of in Hq. cbn [existsb] in Hq.
  rewrite (Ascii.eqb_sym c "'"), (Ascii.eqb_sym c "034"), H2, H3 in Hq. done.
Qed.

Lemma replace_all_no_match gs replacer s :
  (forall before rest, s = before +:+ rest -> exec_groups gs rest = None) ->
  replace_all gs replacer 0 s = s.
Proof.
  induction s as [|c s IH]; intros Hnone.
  - simpl. by rewrite (Hnone "" "" eq_refl).
  - simpl. rewrite (Hnone "" (String c s) eq_refl). f_equal. apply IH.
    intros before rest ->. by apply (Hnone (String c before)).
Qed.

Lemma includes_append p before rest :
  includes p (before +:+ rest) = false -> startsWith p rest = false.
Proof.
  induction before as [|c before IH].
  - destruct rest; simpl; by intros [? _]%orb_false_elim.
  - rewrite append_cons. simpl. intros [_ H]%orb_false_elim. by apply IH.
Qed.

(** X21.  A style sheet without absolute URLs is left as it is.  If a
    style sheet nowhere has [url(] followed by a slash, or by a single or
    double quote and a slash, [rewriteCssUrls] returns it unchanged. *)
Theorem rewriteCssUrls_leaves_other_urls css :
  includes "url(/" css = false ->
  includes "url('/" css = false ->
  includes ("url(" +:+ dq +:+ "/") css = false ->
  rewriteCssUrls css = css.
Proof.
  intros H1 H2 H3. unfold rewriteCssUrls. apply replace_all_no_match.
  intros before rest ->. apply exec_css_url_re_None; by eapply includes_append.
Qed.

Lemma last_split_extension name ext :
  has_char "." ext = false ->
  List.last (split "." (name +:+ "." +:+ ext)) "" = ext.
Proof.
  intros Hext. change ("." +:+ ext) with (String "." ext).
  by rewrite split_app_sep, (split_without_sep _ _ Hext), last_last.
Qed.

(** X22.  The MIME type guessed for a name depends on its extension only,
    and not on the case of the extension.  Two names whose texts after the
    last dot are equal up to case get the same type from
    [guessMimeType]. *)
Theorem guessMimeType_depends_on_the_extension name1 name2 ext1 ext2 :
  has_char "." ext1 = false -> has_char "." ext2 = false ->
  toLowerCase ext1 = toLowerCase ext2 ->
  guessMimeType (name1 +:+ "." +:+ ext1) = guessMimeType (name2 +:+ "." +:+ ext2).
Proof.
  intros H1 H2 Hcase. unfold guessMimeType.
  by rewrite !last_split_extension, Hcase.
Qed.

End RewriteFacts.

(* ===================================================================== *)
(** * The facts above, on the examples *)
(* ===================================================================== *)

Section MoreExamples.
Import JsString Lexicon JsRegExp ServiceWorker.

Lemma cleared_manifest_answers_503_witness :
  onFetch Examples.steady_platform "/wisp/did:plc:xyz/mysite/a/b.html"
    (handleMessage CLEAR_MANIFEST Examples.connected).1
  = (Replied (text_reply 503 "No manifest loaded. Please load a site first."),
     rehydrate (handleMessage CLEAR_MANIFEST Examples.connected).1)
  /\ onFetch Examples.steady_platform "/wisp/did:plc:xyz/mysite/a/b.html"
       (restart (handleMessage CLEAR_MANIFEST Examples.connected).1)
     = (Replied (text_reply 503 "No manifest loaded. Please load a site first."),
        rehydrate (restart (handleMessage CLEAR_MANIFEST Examples.connected).1))
  /\ fetched (rehydrate (handleMessage CLEAR_MANIFEST Examples.connected).1)
     = fetched Examples.connected
  /\ fetched (rehydrate (restart (handleMessage CLEAR_MANIFEST Examples.connected).1))
     = fetched Examples.connected.
Proof.
  apply (cleared_manifest_answers_503 Examples.steady_platform Examples.connected
           "/wisp/did:plc:xyz/mysite/a/b.html").
  - reflexivity.
  - vm_compute. eexists. reflexivity.
Defined.

Lemma clear_manifest_without_connection_keeps_the_site_witness :
  (handleMessage CLEAR_MANIFEST Examples.revived).2 = [MANIFEST_CLEARED true]
  /\ currentManifest (handleMessage CLEAR_MANIFEST Examples.revived).1 = None
  /\ manifests (handleMessage CLEAR_MANIFEST Examples.revived).1
     = manifests Examples.revived
  /\ currentManifest (rehydrate (handleMessage CLEAR_MANIFEST Examples.revived).1)
     = Some Examples.site
  /\ (onFetch Examples.steady_platform "/wisp/did:plc:xyz/mysite/a/b.html"
        (handleMessage CLEAR_MANIFEST Examples.revived).1).1
     <> Replied (text_reply 503 "No manifest loaded. Please load a site first.").
Proof.
  apply (clear_manifest_without_connection_keeps_the_site
           Examples.steady_platform Examples.revived Examples.site
           "/wisp/did:plc:xyz/mysite/a/b.html").
  - reflexivity.
  - vm_compute. reflexivity.
Defined.

Lemma blob_cache_holds_small_blobs_only_witness :
  map_Forall (fun _ blob => blob_size blob <= 5 * 1024 * 1024)
    (blobs (serve_session Examples.steady_platform
              [ Requested "/wisp/did:plc:xyz/mysite/a/b.html"; Stopped;
                Posted GET_STATUS; Requested "/wisp/did:plc:xyz/mysite/a/" ]
              Examples.configured)).
Proof.
  apply (blob_cache_holds_small_blobs_only Examples.steady_platform
           [ Requested "/wisp/did:plc:xyz/mysite/a/b.html"; Stopped;
             Posted GET_STATUS; Requested "/wisp/did:plc:xyz/mysite/a/" ]
           Examples.configured).
  apply map_Forall_empty.
Defined.

Lemma site_name_of_the_path_is_ignored_witness :
  onFetch Examples.steady_platform "/wisp/did:plc:xyz/mysite/a/b.html"
    Examples.configured
  = onFetch Examples.steady_platform "/wisp/did:plc:xyz/another/a/b.html"
      Examples.configured.
Proof.
  apply (site_name_of_the_path_is_ignored Examples.steady_platform
           "/wisp/did:plc:xyz/mysite/a/b.html"
           "/wisp/did:plc:xyz/another/a/b.html"
           "did:plc:xyz" "mysite" "another" "a/b.html" Examples.configured).
  - vm_compute. reflexivity.
  - vm_compute. reflexivity.
Defined.




Lemma lookupIndexFile_is_lookupFile_of_the_index_witness :
  lookupIndexFile Examples.home (join "/" ["a"; "a"])
  = first_found
      (fun indexFile =>
         lookupFile Examples.home (join "/" ["a"; "a"] +:+ "/" +:+ indexFile))
      indexFiles.
Proof.
  apply (lookupIndexFile_is_lookupFile_of_the_index Examples.home ["a"; "a"]).
  - discriminate.
  - repeat constructor; discriminate.
  - reflexivity.
Defined.


Lemma site_manifest_of_new_format_types_every_file_witness :
  typed_files Examples.old_site
  /\ forall p file blobCid,
       file_at Examples.old_site p = Some file ->
       Some (content_type (mimeType file) blobCid) = mimeType file.
Proof.
  apply (site_manifest_of_new_format_types_every_file
           (NewFormat Examples.new_site)
           [NewFormat (DirectoryNode "directory" None)] Examples.old_site).
  - repeat constructor; eexists; reflexivity.
  - vm_compute. reflexivity.
Defined.

Lemma rewriteCssUrls_leaves_other_urls_witness :
  rewriteCssUrls Examples.data_url_css = Examples.data_url_css.
Proof.
  apply (rewriteCssUrls_leaves_other_urls Examples.data_url_css); reflexivity.
Defined.

Lemma guessMimeType_depends_on_the_extension_witness :
  guessMimeType ("INDEX" +:+ "." +:+ "HTML") = guessMimeType ("a/b" +:+ "." +:+ "html").
Proof.
  apply (guessMimeType_depends_on_the_extension "INDEX" "a/b" "HTML" "html");
    reflexivity.
Defined.

End MoreExamples.

(* ===================================================================== *)
(** * Serving a cached file *)
(* ===================================================================== *)

Section OfflineFacts.
Import JsString Lexicon JsRegExp ServiceWorker.

Variable platform : Platform.


End OfflineFacts.

Section OfflineExamples.
Import JsString Lexicon JsRegExp ServiceWorker.


End OfflineExamples.
